(** * Psychedelic Pong: a shallow embedding of [main.py]

    The game is one Python module built on pygame.  This development
    embeds its game logic: the colour cycler, particles, paddles, the
    ball, the collision and scoring passes and the loading of the
    configuration.

    Conventions of the embedding.
    - Python [float] is IEEE binary64: Rocq's primitive [float], whose
      operations are the hardware ones.  Python [int] is [Z].
    - A Python exception is [None] in the option monad (the program has no
      handler inside the game loop), except in [load_config], whose
      handler is the subject of a claim and is modelled with an explicit
      outcome type.
    - The module [random] and the functions [math.cos] and [math.sin] are
      outside the program.  Every random draw is an explicit argument of
      the operation that draws it; cosine and sine are the two fields of a
      record [Math] that the operations take, and every theorem holds for
      all of them.
    - [pygame.Rect] and [colorsys] are libraries; their few operations used
      by the game are written out from their documented behaviour.
    - Rendering and the event queue are not embedded.  Of the drawing
      code, only the circles that [Ball.draw] computes for the trail and
      the angles of the kaleidoscope are; the frame clock is an input of
      the frame. *)

From Stdlib Require Import ZArith Floats Lia.
From stdpp Require Import base option list gmap strings.

Set Warnings "-inexact-float,-register-all".
Local Open Scope Z_scope.

(** ** Python numbers *)

Module Py.

(** [float(z)] for a Python int: the nearest binary64 value.  Beyond the
    binary64 range Python raises [OverflowError]; the embedding yields an
    infinity there, which no execution considered below reaches. *)
Definition of_int (z : Z) : float :=
  SF2Prim (binary_normalize prec emax z 0 false).

(** [int(f)]: truncation toward zero.  Python raises on an infinity
    ([OverflowError]) and on a NaN ([ValueError]). *)
Definition to_int (f : float) : option Z :=
  match Prim2SF f with
  | S754_zero _ => Some 0
  | S754_finite s m e =>
      let a := if (0 <=? e) then Z.pos m * 2 ^ e else Z.pos m / 2 ^ (- e) in
      Some (if s then - a else a)
  | S754_infinity _ | S754_nan => None
  end.

(** [x % 1.0] as CPython's [float_rem] computes it: [fmod] keeps the sign
    of [x], a negative remainder is shifted by the divisor and a zero
    remainder takes the divisor's sign.  [fmod(x, 1.0)] is [x] minus its
    truncation, which binary64 represents exactly. *)
Definition mod1 (x : float) : float :=
  match to_int x with
  | None => nan
  | Some t =>
      let m := (x - of_int t)%float in
      if (m =? 0)%float then 0%float
      else if (m <? 0)%float then (m + 1)%float
      else m
  end.

(** [max(a, b, c)] and [min(a, b, c)]: a later item replaces the running
    result only if it is strictly larger (smaller). *)
Definition max3 (a b c : float) : float :=
  let m := if (a <? b)%float then b else a in
  if (m <? c)%float then c else m.

Definition min3 (a b c : float) : float :=
  let m := if (b <? a)%float then b else a in
  if (c <? m)%float then c else m.

End Py.

(** ** The [colorsys] conversions used by the colour cycler *)

Module colorsys.

Definition rgb_to_hsv (r g b : float) : float * float * float :=
  let maxc := Py.max3 r g b in
  let minc := Py.min3 r g b in
  let rangec := (maxc - minc)%float in
  let v := maxc in
  if (minc =? maxc)%float then (0%float, 0%float, v)
  else
    let s := (rangec / maxc)%float in
    let rc := ((maxc - r) / rangec)%float in
    let gc := ((maxc - g) / rangec)%float in
    let bc := ((maxc - b) / rangec)%float in
    let h :=
      if (r =? maxc)%float then (bc - gc)%float
      else if (g =? maxc)%float then (2 + rc - bc)%float
      else (4 + gc - rc)%float in
    (Py.mod1 (h / 6), s, v).

Definition hsv_to_rgb (h s v : float) : option (float * float * float) :=
  if (s =? 0)%float then Some (v, v, v)
  else
    i ← Py.to_int (h * 6);
    let f := (h * 6 - Py.of_int i)%float in
    let p := (v * (1 - s))%float in
    let q := (v * (1 - s * f))%float in
    let t := (v * (1 - s * (1 - f)))%float in
    let i := i `mod` 6 in
    if i =? 0 then Some (v, t, p)
    else if i =? 1 then Some (q, v, p)
    else if i =? 2 then Some (p, v, t)
    else if i =? 3 then Some (p, q, v)
    else if i =? 4 then Some (t, p, v)
    else if i =? 5 then Some (v, p, q)
    else None.

End colorsys.

(** ** Colours and the colour cycler *)

Record Color := mkColor { r : Z; g : Z; b : Z }.

Definition to_tuple (c : Color) : Z * Z * Z := (r c, g c, b c).

(** The hue that [colorsys.rgb_to_hsv] assigns to a stored colour, the way
    [DynamicColorManager.update] calls it (channels divided by 255). *)
Definition hsv_of (c : Color) : float * float * float :=
  colorsys.rgb_to_hsv (Py.of_int (r c) / 255)%float
                      (Py.of_int (g c) / 255)%float
                      (Py.of_int (b c) / 255)%float.

Definition hue (c : Color) : float := (hsv_of c).1.1.

Record DynamicColorManager := mkManager {
  shift : float;
  colors : gmap string Color
}.

Definition saturation (c : Color) : float := (hsv_of c).1.2.

Definition value (c : Color) : float := (hsv_of c).2.

(** [[int(x * 255) for x in ...]] on the three channels, then [Color]. *)
Definition quantize (rgb : float * float * float) : option Color :=
  let '(x, y, z) := rgb in
  r ← Py.to_int (x * 255);
  g ← Py.to_int (y * 255);
  b ← Py.to_int (z * 255);
  Some (mkColor r g b).

(** The body of the loop of [update] for one stored colour. *)
Definition recolor (sh : float) (c : Color) : option Color :=
  let '(h, s, v) := hsv_of c in
  let h := Py.mod1 (h + sh) in
  colorsys.hsv_to_rgb h s v ≫= quantize.

(** [for element in ELEMENTS: ...], on the dictionary of colours.  A tag
    without an entry is a [KeyError]. *)
Fixpoint recolor_all (sh : float) (elements : list string)
    (cs : gmap string Color) : option (gmap string Color) :=
  match elements with
  | [] => Some cs
  | e :: rest =>
      c ← cs !! e;
      c' ← recolor sh c;
      recolor_all sh rest (<[e := c']> cs)
  end.

Definition DynamicColorManager_update (elements : list string)
    (m : DynamicColorManager) : option DynamicColorManager :=
  let sh := (shift m + 0.01)%float in
  cs ← recolor_all sh elements (colors m);
  Some (mkManager sh cs).

Definition DynamicColorManager_get (m : DynamicColorManager) (element : string)
    : option (Z * Z * Z) :=
  to_tuple <$> colors m !! element.

(** [n] successive calls of [update]. *)
Fixpoint updates (elements : list string) (n : nat)
    (m : DynamicColorManager) : option DynamicColorManager :=
  match n with
  | O => Some m
  | S k => m' ← updates elements k m; DynamicColorManager_update elements m'
  end.

(** ** Loading the configuration *)

(** A JSON value of [config.json], as far as the game reads one. *)
Inductive json :=
| JInt (z : Z)
| JStr (s : string)
| JList (l : list json).

Inductive exn :=
| FileNotFoundError
| PermissionError
| IsADirectoryError
| JSONDecodeError.

Inductive outcome (A : Type) :=
| Returned (a : A)
| Raised (e : exn).
Arguments Returned {A} a.
Arguments Raised {A} e.

(** What [open('config.json', 'r')] followed by [json.load] meets.  A
    document whose top level is not an object is outside the embedding. *)
Inductive config_file :=
| Absent
| Unopenable (e : exn)
| Undecodable
| Document (d : gmap string json).

Inductive level := INFO | WARNING | ERROR.

Definition log_record : Type := level * string.

(** The body of the [try] of [load_config]. *)
Definition open_and_load (f : config_file) : outcome (gmap string json) :=
  match f with
  | Absent => Raised FileNotFoundError
  | Unopenable e => Raised e
  | Undecodable => Raised JSONDecodeError
  | Document d => Returned d
  end.

(** [load_config]: the records it logs and how it ends.  The only handler
    is [except FileNotFoundError]. *)
Definition load_config (f : config_file)
    : list log_record * outcome (gmap string json) :=
  match open_and_load f with
  | Raised FileNotFoundError =>
      ([(ERROR, "Config file not found. Using default settings."%string)],
       Returned ∅)
  | res => ([], res)
  end.

(** [CONFIG.get(key, default)] *)
Definition CONFIG_get (CONFIG : gmap string json) (key : string)
    (dflt : json) : json :=
  default dflt (CONFIG !! key).

(** The module-level constants.  The game computes with integers and a
    list of tags; a configuration whose values have other types is outside
    the embedding ([None]). *)
Record Settings := mkSettings {
  WIDTH : Z;
  HEIGHT : Z;
  FPS : Z;
  PADDLE_WIDTH : Z;
  PADDLE_HEIGHT : Z;
  BALL_SIZE : Z;
  AI_SPEED : Z;
  ELEMENTS : list string
}.

Definition as_int (j : json) : option Z :=
  match j with JInt z => Some z | _ => None end.

Definition as_str (j : json) : option string :=
  match j with JStr s => Some s | _ => None end.

Definition as_tags (j : json) : option (list string) :=
  match j with JList l => mapM as_str l | _ => None end.

Definition default_ELEMENTS : list string :=
  ["Fire"; "Water"; "Earth"; "Air"; "Void"; "Time"]%string.

Definition constants (CONFIG : gmap string json) : option Settings :=
  width ← as_int (CONFIG_get CONFIG "WIDTH" (JInt 800));
  height ← as_int (CONFIG_get CONFIG "HEIGHT" (JInt 600));
  fps ← as_int (CONFIG_get CONFIG "FPS" (JInt 60));
  paddle_width ← as_int (CONFIG_get CONFIG "PADDLE_WIDTH" (JInt 15));
  paddle_height ← as_int (CONFIG_get CONFIG "PADDLE_HEIGHT" (JInt 90));
  ball_size ← as_int (CONFIG_get CONFIG "BALL_SIZE" (JInt 15));
  ai_speed ← as_int (CONFIG_get CONFIG "AI_SPEED" (JInt 7));
  elements ← as_tags (CONFIG_get CONFIG "ELEMENTS" (JList (JStr <$> default_ELEMENTS)));
  Some (mkSettings width height fps paddle_width paddle_height ball_size
                   ai_speed elements).

(** The built-in defaults, as written in the source. *)
Definition defaults : Settings :=
  mkSettings 800 600 60 15 90 15 7 default_ELEMENTS.

(** Module start-up: [CONFIG = load_config()] and then the constants.  An
    exception that leaves [load_config] ends the program before the game
    exists. *)
Definition startup (f : config_file)
    : list log_record * outcome (option Settings) :=
  match load_config f with
  | (log, Returned CONFIG) => (log, Returned (constants CONFIG))
  | (log, Raised e) => (log, Raised e)
  end.

(** ** [math] and the random draws *)

Record Math := mkMath {
  cos : float → float;
  sin : float → float
}.

(** ** [pygame.Rect] *)

Module Rect.

Record t := mk { x : Z; y : Z; w : Z; h : Z }.

Definition left (a : t) : Z := x a.
Definition top (a : t) : Z := y a.
Definition right (a : t) : Z := x a + w a.
Definition bottom (a : t) : Z := y a + h a.
(** pygame divides the C integers: the quotient truncates. *)
Definition centerx (a : t) : Z := x a + w a ÷ 2.
Definition centery (a : t) : Z := y a + h a ÷ 2.
Definition center (a : t) : Z * Z := (centerx a, centery a).

Definition set_x (a : t) (v : Z) : t := mk v (y a) (w a) (h a).
Definition set_y (a : t) (v : Z) : t := mk (x a) v (w a) (h a).
Definition set_center (a : t) (c : Z * Z) : t :=
  mk (c.1 - w a ÷ 2) (c.2 - h a ÷ 2) (w a) (h a).

(** [rect.x += d] for a float [d]: the sum is a float, and the setter
    truncates it to an integer. *)
Definition add_x (a : t) (d : float) : option t :=
  set_x a <$> Py.to_int (Py.of_int (x a) + d).
Definition add_y (a : t) (d : float) : option t :=
  set_y a <$> Py.to_int (Py.of_int (y a) + d).

(** [colliderect]: an empty rectangle meets nothing; otherwise the
    intervals overlap strictly on both axes. *)
Definition colliderect (a b : t) : bool :=
  if (w a =? 0) || (h a =? 0) || (w b =? 0) || (h b =? 0) then false
  else
    (Z.min (x a) (x a + w a) <? Z.max (x b) (x b + w b))
    && (Z.min (y a) (y a + h a) <? Z.max (y b) (y b + h b))
    && (Z.min (x b) (x b + w b) <? Z.max (x a) (x a + w a))
    && (Z.min (y b) (y b + h b) <? Z.max (y a) (y a + h a)).

End Rect.

(** ** Particles *)

Module Particle.

Record t := mk {
  x : float;
  y : float;
  color : Z * Z * Z;
  size : float;
  speed : float;
  angle : float
}.

(** The three draws of [__init__]: [randint(2, 5)], [uniform(1, 3)] and
    [uniform(0, 2 * math.pi)]. *)
Record draw := mkDraw {
  drawn_size : Z;
  drawn_speed : float;
  drawn_angle : float
}.

Definition init (x y : float) (color : Z * Z * Z) (d : draw) : t :=
  mk x y color (Py.of_int (drawn_size d)) (drawn_speed d) (drawn_angle d).

Section update.
Context (math : Math).

(** [update]: the particle after the call and the value returned. *)
Definition update (p : t) : t * bool :=
  let x' := (x p + cos math (angle p) * speed p)%float in
  let y' := (y p + sin math (angle p) * speed p)%float in
  let size' := (size p - 0.1)%float in
  (mk x' y' (color p) size' (speed p) (angle p), (size' <=? 0)%float).

(** [[p for p in particles if not p.update()]] *)
Fixpoint age (ps : list t) : list t :=
  match ps with
  | [] => []
  | p :: rest =>
      let '(p', expired) := update p in
      if expired then age rest else p' :: age rest
  end.

(** The particle after [n] calls of [update]. *)
Fixpoint after (n : nat) (p : t) : t :=
  match n with
  | O => p
  | S k => (update (after k p)).1
  end.

(** What the [n]-th call of [update] returns, [n ≥ 1]. *)
Definition expired_at (n : nat) (p : t) : bool :=
  match n with
  | O => false
  | S k => (update (after k p)).2
  end.
End update.

End Particle.

(** ** The ball *)

Module Ball.

Record t := mk {
  rect : Rect.t;
  dx : float;
  dy : float;
  element : string;
  dimension : Z;
  trail : list (Z * Z);
  particles : list Particle.t
}.

(** The draws of [reset]: [uniform(-pi/4, pi/4)], [choice([-1, 1])] and
    [choice(ELEMENTS)]. *)
Record reset_draw := mkResetDraw {
  drawn_angle : float;
  drawn_sign : Z;
  drawn_element : string
}.

(** The draws of [update]: [random.random()] and those of the particle
    it may create. *)
Record update_draw := mkUpdateDraw {
  chance : float;
  spawned : Particle.draw
}.

Section ops.
Context (math : Math) (cfg : Settings).

Definition reset (d : reset_draw) (b : t) : t :=
  let rect' :=
    Rect.set_center (rect b) (WIDTH cfg `div` 2, HEIGHT cfg `div` 2) in
  let speed := 5%float in
  let angle := drawn_angle d in
  mk rect'
     (speed * cos math angle * Py.of_int (drawn_sign d))%float
     (speed * sin math angle)%float
     (drawn_element d)
     0
     (trail b)
     (particles b).

(** [__init__]: the rectangle, then [reset()], then the empty trail and
    particle list.  [reset] runs before the two lists exist and does
    not touch them. *)
Definition init (d : reset_draw) : t :=
  let rect0 :=
    Rect.mk (WIDTH cfg `div` 2 - BALL_SIZE cfg `div` 2)
            (HEIGHT cfg `div` 2 - BALL_SIZE cfg `div` 2)
            (BALL_SIZE cfg) (BALL_SIZE cfg) in
  let b := reset d (mk rect0 0 0 "" 0 [] []) in
  mk (rect b) (dx b) (dy b) (element b) (dimension b) [] [].

Definition update (cm : DynamicColorManager) (time_factor : float)
    (d : update_draw) (b : t) : option t :=
  r1 ← Rect.add_x (rect b) (dx b * time_factor);
  r2 ← Rect.add_y r1 (dy b * time_factor);
  let trail1 := Rect.center r2 :: trail b in
  let trail2 :=
    if (20 <? length trail1)%nat then removelast trail1 else trail1 in
  ps ← (if (chance d <? 0.2)%float then
          c ← DynamicColorManager_get cm (element b);
          Some (particles b ++
                [Particle.init (Py.of_int (Rect.centerx r2))
                               (Py.of_int (Rect.centery r2)) c (spawned d)])
        else Some (particles b));
  Some (mk r2 (dx b) (dy b) (element b) (dimension b) trail2
           (Particle.age math ps)).
End ops.

End Ball.

(** ** Paddles *)

Module Paddle.

Record t := mk {
  rect : Rect.t;
  element : string;
  is_ai : bool;
  charge : float;
  max_charge : Z;
  combo_meter : Z;
  combo_multiplier : float;
  particles : list Particle.t
}.

(** The three entries of [pygame.key.get_pressed()] that are read. *)
Record keys := mkKeys { K_w : bool; K_s : bool; K_LSHIFT : bool }.

(** The draws of [_update_particles]: [random.random()],
    [randint(top, bottom)] and those of the particle. *)
Record update_draw := mkUpdateDraw {
  chance : float;
  drawn_y : Z;
  spawned : Particle.draw
}.

Definition set_rect (p : t) (rc : Rect.t) : t :=
  mk rc (element p) (is_ai p) (charge p) (max_charge p) (combo_meter p)
     (combo_multiplier p) (particles p).

Definition move (p : t) (d : Z) : t :=
  set_rect p (Rect.set_y (rect p) (Rect.y (rect p) + d)).

Section ops.
Context (math : Math) (cfg : Settings).

(** [__init__], with the tag that [random.choice(ELEMENTS)] drew. *)
Definition init (x y : Z) (is_ai : bool) (drawn_element : string) : t :=
  mk (Rect.mk x y (PADDLE_WIDTH cfg) (PADDLE_HEIGHT cfg))
     drawn_element is_ai 0 100 0 1 [].

Definition _ai_move (ball : Ball.t) (p : t) : t :=
  if (Rect.centery (rect p) <? Rect.centery (Ball.rect ball))
     && (Rect.bottom (rect p) <? HEIGHT cfg)
  then move p (AI_SPEED cfg)
  else if (Rect.centery (Ball.rect ball) <? Rect.centery (rect p))
          && (0 <? Rect.top (rect p))
  then move p (- AI_SPEED cfg)
  else p.

(** The branch of [update] for the player's paddle. *)
Definition _player_move (k : keys) (p : t) : t :=
  let p1 := if K_w k && (0 <? Rect.top (rect p)) then move p (-5) else p in
  let p2 :=
    if K_s k && (Rect.bottom (rect p1) <? HEIGHT cfg) then move p1 5
    else p1 in
  let charge' :=
    if K_LSHIFT k then
      let c := (charge p2 + 1)%float in
      if (Py.of_int (max_charge p2) <? c)%float
      then Py.of_int (max_charge p2) else c
    else
      let c := (charge p2 - 0.5)%float in
      if (c <? 0)%float then 0%float else c in
  mk (rect p2) (element p2) (is_ai p2) charge' (max_charge p2)
     (combo_meter p2) (combo_multiplier p2) (particles p2).

Definition _update_particles (cm : DynamicColorManager) (d : update_draw)
    (p : t) : option t :=
  let aged := Particle.age math (particles p) in
  ps ← (if (chance d <? 0.2)%float then
          c ← DynamicColorManager_get cm (element p);
          Some (aged ++
                [Particle.init (Py.of_int (Rect.centerx (rect p)))
                               (Py.of_int (drawn_y d)) c (spawned d)])
        else Some aged);
  Some (mk (rect p) (element p) (is_ai p) (charge p) (max_charge p)
           (combo_meter p) (combo_multiplier p) ps).

Definition update (cm : DynamicColorManager) (k : keys) (ball : Ball.t)
    (d : update_draw) (p : t) : option t :=
  let p1 := if negb (is_ai p) then _player_move k p else _ai_move ball p in
  _update_particles cm d p1.
End ops.

End Paddle.

(** ** The game: collision pass and scoring pass *)

Module Game.

Record t := mk {
  player_paddle : Paddle.t;
  ai_paddle : Paddle.t;
  ball : Ball.t;
  score : Z * Z;
  time_factor : float;
  particles : list Particle.t
}.

(** The two items of [[self.player_paddle, self.ai_paddle]]. *)
Inductive side := Player | AI.

Definition paddle (s : side) (g : t) : Paddle.t :=
  match s with Player => player_paddle g | AI => ai_paddle g end.

Definition other (s : side) : side :=
  match s with Player => AI | AI => Player end.

Definition set_paddle (s : side) (p : Paddle.t) (g : t) : t :=
  match s with
  | Player => mk p (ai_paddle g) (ball g) (score g) (time_factor g) (particles g)
  | AI => mk (player_paddle g) p (ball g) (score g) (time_factor g) (particles g)
  end.

Definition set_ball (b : Ball.t) (g : t) : t :=
  mk (player_paddle g) (ai_paddle g) b (score g) (time_factor g) (particles g).

Definition set_dx (v : float) (b : Ball.t) : Ball.t :=
  Ball.mk (Ball.rect b) v (Ball.dy b) (Ball.element b) (Ball.dimension b)
          (Ball.trail b) (Ball.particles b).

Definition set_dy (v : float) (b : Ball.t) : Ball.t :=
  Ball.mk (Ball.rect b) (Ball.dx b) v (Ball.element b) (Ball.dimension b)
          (Ball.trail b) (Ball.particles b).

Definition set_combo_meter (m : Z) (p : Paddle.t) : Paddle.t :=
  Paddle.mk (Paddle.rect p) (Paddle.element p) (Paddle.is_ai p)
            (Paddle.charge p) (Paddle.max_charge p) m
            (Paddle.combo_multiplier p) (Paddle.particles p).

Definition set_combo_multiplier (v : float) (p : Paddle.t) : Paddle.t :=
  Paddle.mk (Paddle.rect p) (Paddle.element p) (Paddle.is_ai p)
            (Paddle.charge p) (Paddle.max_charge p) (Paddle.combo_meter p)
            v (Paddle.particles p).

(** [1 + (combo_meter // 3) * 0.2] *)
Definition multiplier_of (combo_meter : Z) : float :=
  (1 + Py.of_int (combo_meter `div` 3) * 0.2)%float.

Section ops.
Context (math : Math) (cfg : Settings).

(** [__init__], with the tags and the ball's draws. *)
Definition init (player_element ai_element : string)
    (d : Ball.reset_draw) : t :=
  mk (Paddle.init cfg 50 (HEIGHT cfg `div` 2 - PADDLE_HEIGHT cfg `div` 2)
                  false player_element)
     (Paddle.init cfg (WIDTH cfg - 50 - PADDLE_WIDTH cfg)
                  (HEIGHT cfg `div` 2 - PADDLE_HEIGHT cfg `div` 2)
                  true ai_element)
     (Ball.init math cfg d)
     (0, 0) 1 [].

(** [color = color or COLOR_MANAGER.get(self.ball.element)], then one
    particle per iteration of [range(num_particles)]; [draws i] are the
    draws of the [i]-th one. *)
Definition _create_collision_particles (cm : DynamicColorManager)
    (num_particles : nat) (color : option (Z * Z * Z))
    (draws : nat → Particle.draw) (g : t) : option t :=
  c ← (match color with
       | Some c => Some c
       | None => DynamicColorManager_get cm (Ball.element (ball g))
       end);
  let spawn i :=
    Particle.init (Py.of_int (Rect.centerx (Ball.rect (ball g))))
                  (Py.of_int (Rect.centery (Ball.rect (ball g))))
                  c (draws i) in
  Some (mk (player_paddle g) (ai_paddle g) (ball g) (score g)
           (time_factor g) (particles g ++ (spawn <$> seq 0 num_particles))).

(** The body of the loop of [_handle_collisions] for one paddle. *)
Definition _collide (cm : DynamicColorManager) (s : side)
    (draws : nat → Particle.draw) (g : t) : option t :=
  if Rect.colliderect (Ball.rect (ball g)) (Paddle.rect (paddle s g)) then
    let g1 := set_ball (set_dx (Ball.dx (ball g) * -1.1)%float (ball g)) g in
    let p1 := set_combo_meter (Paddle.combo_meter (paddle s g1) + 1)
                              (paddle s g1) in
    let p2 := set_combo_multiplier (multiplier_of (Paddle.combo_meter p1)) p1 in
    _create_collision_particles cm 20 None draws (set_paddle s p2 g1)
  else Some g.

Definition _handle_collisions (cm : DynamicColorManager)
    (draws : side → nat → Particle.draw) (g : t) : option t :=
  let g0 :=
    if (Rect.top (Ball.rect (ball g)) <=? 0)
       || (HEIGHT cfg <=? Rect.bottom (Ball.rect (ball g)))
    then set_ball (set_dy (Ball.dy (ball g) * -1)%float (ball g)) g
    else g in
  g1 ← _collide cm Player (draws Player) g0;
  _collide cm AI (draws AI) g1.

Definition _update_game_state (d : Ball.reset_draw) (g : t) : t :=
  if (Rect.left (Ball.rect (ball g)) <=? 0)
     || (WIDTH cfg <=? Rect.right (Ball.rect (ball g)))
  then
    let score' :=
      if Rect.left (Ball.rect (ball g)) <=? 0
      then ((score g).1, (score g).2 + 1)
      else ((score g).1 + 1, (score g).2) in
    mk (set_combo_meter 0 (player_paddle g))
       (set_combo_meter 0 (ai_paddle g))
       (Ball.reset math cfg d (ball g))
       score' (time_factor g) (particles g)
  else g.

End ops.

End Game.

(** ** Visual effects, power-ups, rifts and the whole frame *)

Module VisualEffects.

Record t := mk {
  wave_distortion : float;
  kaleidoscope : bool;
  kaleidoscope_intensity : Z
}.

Definition init : t := mk 0 false 0.

(** The draws of [update]: [random.random()] and
    [random.choice([0, 45, 90])]. *)
Record update_draw := mkUpdateDraw {
  chance : float;
  drawn_intensity : Z
}.

Section ops.
Context (math : Math).

(** [update], with the value of [pygame.time.get_ticks()]. *)
Definition update (ticks : Z) (d : update_draw) (v : t) : t :=
  let wave := (sin math (Py.of_int ticks * 0.001) * 2)%float in
  if (chance d <? 0.0005)%float then
    let k := negb (kaleidoscope v) in
    mk wave k (if k then drawn_intensity d else 0)
  else mk wave (kaleidoscope v) (kaleidoscope_intensity v).
End ops.

(** The angles of [range(0, 360, step)] for a positive step. *)
Definition angles (step : Z) : list Z :=
  (λ i, i * step) <$> seqZ 0 ((360 + step - 1) `div` step).

(** The angles at which [apply] blends a rotated copy of the frame: those
    of [apply_kaleidoscope], which [apply] calls when the kaleidoscope is
    on and which does nothing unless the intensity is positive. *)
Definition rotations (v : t) : list Z :=
  if kaleidoscope v then
    if 0 <? kaleidoscope_intensity v then angles (kaleidoscope_intensity v)
    else []
  else [].

End VisualEffects.

Module PowerUp.

Record t := mk {
  rect : Rect.t;
  type : string;
  color : Color;
  pulse : float
}.

(** The draws of [__init__]: the two [randint] of the position, the
    [choice] of the type and the colour of [Color.random()]. *)
Record init_draw := mkInitDraw {
  drawn_x : Z;
  drawn_y : Z;
  drawn_type : string;
  drawn_color : Color
}.

Definition init (d : init_draw) : t :=
  mk (Rect.mk (drawn_x d) (drawn_y d) 20 20) (drawn_type d) (drawn_color d) 0.

Definition update (p : t) : t :=
  mk (rect p) (type p) (color p) (pulse p + 0.1)%float.

End PowerUp.

Module InterdimensionalRift.

Record t := mk {
  x : Z;
  y : Z;
  radius : Z;
  destination : Z;
  color : Color;
  particles : list Particle.t
}.

Record init_draw := mkInitDraw {
  drawn_x : Z;
  drawn_y : Z;
  drawn_radius : Z;
  drawn_destination : Z;
  drawn_color : Color
}.

Definition init (d : init_draw) : t :=
  mk (drawn_x d) (drawn_y d) (drawn_radius d) (drawn_destination d)
     (drawn_color d) [].

(** The draws of [update]: [random.random()], [uniform(0, 2 * math.pi)]
    and those of the particle. *)
Record update_draw := mkUpdateDraw {
  chance : float;
  drawn_angle : float;
  spawned : Particle.draw
}.

Section ops.
Context (math : Math).

Definition update (d : update_draw) (r : t) : t :=
  let ps :=
    if (chance d <? 0.2)%float then
      let px := (Py.of_int (x r)
                 + cos math (drawn_angle d) * Py.of_int (radius r))%float in
      let py := (Py.of_int (y r)
                 + sin math (drawn_angle d) * Py.of_int (radius r))%float in
      particles r ++ [Particle.init px py (to_tuple (color r)) (spawned d)]
    else particles r in
  mk (x r) (y r) (radius r) (destination r) (color r) (Particle.age math ps).
End ops.

End InterdimensionalRift.

(** The fields of [Game] that the collision and scoring passes do not
    touch, beside those of [Game.t], and the global [COLOR_MANAGER]. *)
Module World.

Record t := mk {
  game : Game.t;
  color_manager : DynamicColorManager;
  powerups : list PowerUp.t;
  rifts : list InterdimensionalRift.t;
  reality_shift : float;
  visual_effects : VisualEffects.t
}.

Definition set_game (g : Game.t) (w : t) : t :=
  mk g (color_manager w) (powerups w) (rifts w) (reality_shift w)
     (visual_effects w).

Definition set_time_factor (v : float) (g : Game.t) : Game.t :=
  Game.mk (Game.player_paddle g) (Game.ai_paddle g) (Game.ball g)
          (Game.score g) v (Game.particles g).

Definition set_dimension (v : Z) (b : Ball.t) : Ball.t :=
  Ball.mk (Ball.rect b) (Ball.dx b) (Ball.dy b) (Ball.element b) v
          (Ball.trail b) (Ball.particles b).

(** The draws for one power-up that the ball touches: the [uniform] of its
    effect and those of the 30 particles. *)
Record touch_draw := mkTouchDraw {
  effect : float;
  sparks : nat → Particle.draw
}.

(** The draws for one rift: those of its [update] and those of the 50
    particles. *)
Record rift_draw := mkRiftDraw {
  ambient : InterdimensionalRift.update_draw;
  flash : nat → Particle.draw
}.

(** Everything a frame takes from outside: the keys, the clock and the
    draws of each step. *)
Record frame_input := mkFrameInput {
  keys : Paddle.keys;
  ticks : Z;
  effects_draw : VisualEffects.update_draw;
  player_draw : Paddle.update_draw;
  ai_draw : Paddle.update_draw;
  ball_draw : Ball.update_draw;
  collision_draws : Game.side → nat → Particle.draw;
  reset_draw : Ball.reset_draw;
  powerup_chance : float;
  powerup_spawn : PowerUp.init_draw;
  powerup_draws : nat → touch_draw;
  rift_chance : float;
  rift_spawn : InterdimensionalRift.init_draw;
  rift_draws : nat → rift_draw
}.

Section ops.
Context (math : Math) (hypot : float → float → float) (cfg : Settings).

(** [__init__]: the game and the empty collections. *)
Definition init (cm : DynamicColorManager) (player_element ai_element : string)
    (d : Ball.reset_draw) : t :=
  mk (Game.init math cfg player_element ai_element d) cm [] [] 0
     VisualEffects.init.

Definition _apply_powerup (p : PowerUp.t) (drawn : float) (w : t) : t :=
  if bool_decide (PowerUp.type p = "Time Warp"%string) then
    set_game (set_time_factor drawn (game w)) w
  else if bool_decide (PowerUp.type p = "Reality Bend"%string) then
    mk (game w) (color_manager w) (powerups w) (rifts w) drawn
       (visual_effects w)
  else w.

(** The loop of [_handle_powerups] over the copy of the list, from item
    number [i] on.  It returns the power-ups that stay listed: removing an
    item from [self.powerups] leaves the others in their order. *)
Fixpoint _powerup_loop (items : list PowerUp.t) (i : nat)
    (draws : nat → touch_draw) (w : t) : option (t * list PowerUp.t) :=
  match items with
  | [] => Some (w, [])
  | p :: rest =>
      let p' := PowerUp.update p in
      if Rect.colliderect (Ball.rect (Game.ball (game w))) (PowerUp.rect p')
      then
        let w1 := _apply_powerup p' (effect (draws i)) w in
        g ← Game._create_collision_particles (color_manager w1) 30
               (Some (to_tuple (PowerUp.color p'))) (sparks (draws i))
               (game w1);
        _powerup_loop rest (S i) draws (set_game g w1)
      else
        '(w', kept) ← _powerup_loop rest (S i) draws w;
        Some (w', p' :: kept)
  end.

Definition _handle_powerups (i : frame_input) (w : t) : option t :=
  let items :=
    if (powerup_chance i <? 0.01)%float
    then powerups w ++ [PowerUp.init (powerup_spawn i)]
    else powerups w in
  '(w', kept) ← _powerup_loop items 0 (powerup_draws i) w;
  Some (mk (game w') (color_manager w') kept (rifts w') (reality_shift w')
           (visual_effects w')).

(** The test of [_handle_rifts]: the ball's center is closer to the rift's
    center than its radius. *)
Definition in_rift (b : Ball.t) (r : InterdimensionalRift.t) : bool :=
  (hypot (Py.of_int (Rect.centerx (Ball.rect b) - InterdimensionalRift.x r))
         (Py.of_int (Rect.centery (Ball.rect b) - InterdimensionalRift.y r))
   <? Py.of_int (InterdimensionalRift.radius r))%float.

(** The loop of [_handle_rifts], from rift number [i] on; it returns the
    rifts after their [update]. *)
Fixpoint _rift_loop (items : list InterdimensionalRift.t) (i : nat)
    (draws : nat → rift_draw) (g : Game.t) (cm : DynamicColorManager)
    : option (Game.t * list InterdimensionalRift.t) :=
  match items with
  | [] => Some (g, [])
  | r :: rest =>
      let r' := InterdimensionalRift.update math (ambient (draws i)) r in
      g1 ← (if in_rift (Game.ball g) r' then
              Game._create_collision_particles cm 50
                (Some (to_tuple (InterdimensionalRift.color r')))
                (flash (draws i))
                (Game.set_ball
                   (set_dimension (InterdimensionalRift.destination r')
                                  (Game.ball g)) g)
            else Some g);
      '(g', rs) ← _rift_loop rest (S i) draws g1 cm;
      Some (g', r' :: rs)
  end.

Definition _handle_rifts (i : frame_input) (w : t) : option t :=
  let items :=
    if (rift_chance i <? 0.005)%float
    then rifts w ++ [InterdimensionalRift.init (rift_spawn i)]
    else rifts w in
  '(g', rs) ← _rift_loop items 0 (rift_draws i) (game w) (color_manager w);
  Some (mk g' (color_manager w) (powerups w) rs (reality_shift w)
           (visual_effects w)).

(** [Game.update]: one frame. *)
Definition update (i : frame_input) (w : t) : option t :=
  cm ← DynamicColorManager_update (ELEMENTS cfg) (color_manager w);
  let effects :=
    VisualEffects.update math (ticks i) (effects_draw i) (visual_effects w) in
  let g := game w in
  player ← Paddle.update math cfg cm (keys i) (Game.ball g) (player_draw i)
             (Game.player_paddle g);
  ai ← Paddle.update math cfg cm (keys i) (Game.ball g) (ai_draw i)
         (Game.ai_paddle g);
  ball ← Ball.update math cm (Game.time_factor g) (ball_draw i) (Game.ball g);
  let g1 := Game.mk player ai ball (Game.score g) (Game.time_factor g)
                    (Game.particles g) in
  g2 ← Game._handle_collisions cfg cm (collision_draws i) g1;
  let g3 := Game._update_game_state math cfg (reset_draw i) g2 in
  w4 ← _handle_powerups i
         (mk g3 cm (powerups w) (rifts w) (reality_shift w) effects);
  w5 ← _handle_rifts i w4;
  let g5 := game w5 in
  Some (set_game
          (Game.mk (Game.player_paddle g5) (Game.ai_paddle g5) (Game.ball g5)
                   (Game.score g5) (Game.time_factor g5)
                   (Particle.age math (Game.particles g5)))
          w5).
End ops.

End World.

(** ** Drawing the trail *)

(** A call of [pygame.draw.circle]: the colour with its alpha, the center
    and the radius. *)
Record circle := mkCircle {
  circle_color : Z * Z * Z * Z;
  circle_pos : Z * Z;
  circle_radius : Z
}.

(** [Ball.draw], its loop [for i, pos in enumerate(self.trail)], from
    index [i] on: the circles it draws, in order.  The drawing itself
    belongs to pygame. *)
Fixpoint trail_circles (cm : DynamicColorManager) (b : Ball.t) (i : nat)
    (trail : list (Z * Z)) : option (list circle) :=
  match trail with
  | [] => Some []
  | pos :: rest =>
      let size := (Py.of_int (Rect.w (Ball.rect b))
                   - Py.of_int (Z.of_nat i) * 0.5)%float in
      let alpha := 255 - Z.of_nat i * 12 in
      '(r, g, b') ← DynamicColorManager_get cm (Ball.element b);
      radius ← Py.to_int size;
      cs ← trail_circles cm b (S i) rest;
      Some (mkCircle (r, g, b', alpha) pos radius :: cs)
  end.

(** ** Concrete surroundings for running the embedding *)

(** Polynomial stand-ins for [math.cos] and [math.sin].  Every theorem
    below holds for all functions; these only instantiate them. *)
Definition poly_math : Math :=
  mkMath (λ a, 1 - a * a / 2 + a * a * a * a / 24)%float
         (λ a, a - a * a * a / 6 + a * a * a * a * a / 120)%float.

(** A colour cycler as [__init__] may build it for the default tags: every
    channel lies in the range of [Color.random]. *)
Definition palette : DynamicColorManager :=
  mkManager 0
    (list_to_map
       [("Fire"%string, mkColor 255 100 100);
        ("Water"%string, mkColor 100 140 255);
        ("Earth"%string, mkColor 150 200 110);
        ("Air"%string, mkColor 200 230 255);
        ("Void"%string, mkColor 120 120 120);
        ("Time"%string, mkColor 255 215 100)]).

Definition a_particle_draw : Particle.draw := Particle.mkDraw 3 2 1.

Definition a_reset_draw : Ball.reset_draw :=
  Ball.mkResetDraw 0.5 (-1) "Water".

(** ** Vocabulary of the statements *)

(** A game as [Game.__init__] builds it with the default settings, and the
    same game with the ball's rectangle and velocity replaced. *)
Definition new_game : Game.t :=
  Game.init poly_math defaults "Fire" "Time" a_reset_draw.

Definition with_ball (rc : Rect.t) (dx dy : float) (g : Game.t) : Game.t :=
  Game.set_ball
    (Ball.mk rc dx dy (Ball.element (Game.ball g)) (Ball.dimension (Game.ball g))
             (Ball.trail (Game.ball g)) (Ball.particles (Game.ball g)))
    g.

(** Draws for which no particle is spawned, and draws for the particles of
    a collision. *)
Definition quiet : Ball.update_draw := Ball.mkUpdateDraw 0.5 a_particle_draw.

Definition some_draws : Game.side → nat → Particle.draw :=
  λ _ i, Particle.mkDraw (2 + Z.of_nat i `mod` 4) 2 1.

Definition no_keys : Paddle.keys := Paddle.mkKeys false false false.

Definition no_spawn : Paddle.update_draw :=
  Paddle.mkUpdateDraw 0.5 300 a_particle_draw.

(** The ball of a new game, put at a given rectangle. *)
Definition ball_at (rc : Rect.t) : Ball.t :=
  Game.ball (with_ball rc 4 0 new_game).

(** Three collision passes with the ball on the player's paddle. *)
Definition three_hits : option Game.t :=
  let hit := Game._handle_collisions defaults palette some_draws in
  g1 ← hit (with_ball (Rect.mk 60 280 15 15) (-5) 1 new_game);
  g2 ← hit g1;
  hit g2.

(** [n] calls of [Paddle.update] with the ball held where it is. *)
Fixpoint chase (n : nat) (ball : Ball.t) (p : Paddle.t) : option Paddle.t :=
  match n with
  | O => Some p
  | S k =>
      p' ← chase k ball p;
      Paddle.update poly_math defaults palette no_keys ball no_spawn p'
  end.

(** [self.size -= 0.1] *)
Definition shrink (s : float) : float := (s - 0.1)%float.

(** Sizes checked one call after the other, for a bounded search. *)
Definition alive_before (n : nat) (s : float) : bool :=
  forallb (λ k, negb (Nat.iter (S k) shrink s <=? 0)%float) (seq 0 n).

(** The call of [update] that first returns [True], by initial size. *)
Definition lifetime (initial_size : Z) : nat :=
  if initial_size =? 5 then 51 else Z.to_nat (10 * initial_size).

(** The test of the scoring pass. *)
Definition out_of_bounds (cfg : Settings) (g : Game.t) : bool :=
  (Rect.left (Ball.rect (Game.ball g)) <=? 0)
  || (WIDTH cfg <=? Rect.right (Ball.rect (Game.ball g))).

(** What [update] does to the trail: push in front, drop the last item
    when that makes more than 20. *)
Definition push_trail (c : Z * Z) (trail : list (Z * Z)) : list (Z * Z) :=
  if (20 <? length (c :: trail))%nat then removelast (c :: trail)
  else c :: trail.

(** The calls that reach a ball during play. *)
Inductive call :=
| Update (time_factor : float) (d : Ball.update_draw)
| Reset (d : Ball.reset_draw).

(** Running a sequence of calls, first call first.  Beside the ball, the
    run keeps the list of every center that an [update] recorded, the
    most recent one first. *)
Fixpoint run (math : Math) (cfg : Settings) (cm : DynamicColorManager)
    (calls : list call) (b : Ball.t) (recorded : list (Z * Z))
    : option (Ball.t * list (Z * Z)) :=
  match calls with
  | [] => Some (b, recorded)
  | Update tf d :: rest =>
      b' ← Ball.update math cm tf d b;
      run math cfg cm rest b' (Rect.center (Ball.rect b') :: recorded)
  | Reset d :: rest => run math cfg cm rest (Ball.reset math cfg d b) recorded
  end.

(** The particles that a hit creates: [num] of them at the ball's center. *)
Definition burst (g : Game.t) (c : Z * Z * Z) (draws : nat → Particle.draw)
    (num : nat) : list Particle.t :=
  (λ i, Particle.init (Py.of_int (Rect.centerx (Ball.rect (Game.ball g))))
                      (Py.of_int (Rect.centery (Ball.rect (Game.ball g))))
                      c (draws i)) <$> seq 0 num.

(** The wall test that opens the collision pass. *)
Definition after_walls (cfg : Settings) (g : Game.t) : Game.t :=
  if (Rect.top (Ball.rect (Game.ball g)) <=? 0)
     || (HEIGHT cfg <=? Rect.bottom (Ball.rect (Game.ball g)))
  then Game.set_ball (Game.set_dy (Ball.dy (Game.ball g) * -1)%float (Game.ball g)) g
  else g.

(** [self.shift += 0.01] *)
Definition accumulate (sh : float) : float := (sh + 0.01)%float.

(** ** Vocabulary of the further properties *)

(** A paddle through successive frames: the keys held, the ball and the
    draws of each [update], first frame first. *)
Fixpoint paddle_run (math : Math) (cfg : Settings) (cm : DynamicColorManager)
    (frames : list (Paddle.keys * Ball.t * Paddle.update_draw))
    (p : Paddle.t) : option Paddle.t :=
  match frames with
  | [] => Some p
  | (k, ball, d) :: rest =>
      p' ← Paddle.update math cfg cm k ball d p;
      paddle_run math cfg cm rest p'
  end.

(** A drawn size in the range of [random.randint(2, 5)]. *)
Definition sized (d : Particle.draw) : Prop := 2 ≤ Particle.drawn_size d ≤ 5.

Definition call_sized (c : call) : Prop :=
  match c with
  | Update _ d => sized (Ball.spawned d)
  | Reset _ => True
  end.

(** A particle created with size [s0] that has been through [k] calls of
    [update], none of which reported it expired. *)
Definition born (s0 : Z) (k : nat) (p : Particle.t) : Prop :=
  2 ≤ s0 ≤ 5
  ∧ Particle.size p = Nat.iter k shrink (Py.of_int s0)
  ∧ alive_before k (Py.of_int s0) = true.

(** A particle list together with the number of updates each item has
    been through. *)
Definition tracked (ps : list Particle.t) (ages : list nat) : Prop :=
  Forall2 (λ p k, ∃ s0, born s0 k p) ps ages.

(** A particle list whose items have been through pairwise different
    numbers of updates, each at least [lo]. *)
Definition listed_since (lo : nat) (ps : list Particle.t) : Prop :=
  ∃ ages, tracked ps ages ∧ NoDup ages ∧ Forall (λ k, (lo ≤ k)%nat) ages.

(** Draws with which [Ball.update] and [Paddle.update] spawn a particle of
    the largest size. *)
Definition spawning : Ball.update_draw :=
  Ball.mkUpdateDraw 0.1 (Particle.mkDraw 5 2 1).

Definition paddle_spawning : Paddle.update_draw :=
  Paddle.mkUpdateDraw 0.1 300 (Particle.mkDraw 5 2 1).

(** The player's paddle on the grid of its 5-pixel steps, inside the
    screen, with the bottom of the screen on the same grid. *)
Definition on_grid (cfg : Settings) (p : Paddle.t) : Prop :=
  Paddle.is_ai p = false
  ∧ (HEIGHT cfg - Rect.h (Paddle.rect p)) `mod` 5 = 0
  ∧ Rect.y (Paddle.rect p) `mod` 5 = 0
  ∧ 0 ≤ Rect.top (Paddle.rect p)
  ∧ Rect.bottom (Paddle.rect p) ≤ HEIGHT cfg.

(** The AI paddle less than one step outside the screen. *)
Definition near_screen (cfg : Settings) (p : Paddle.t) : Prop :=
  Paddle.is_ai p = true
  ∧ - AI_SPEED cfg < Rect.top (Paddle.rect p)
  ∧ Rect.bottom (Paddle.rect p) < HEIGHT cfg + AI_SPEED cfg.

(** [k / 2] as a float: the values that the charge takes. *)
Definition half (k : Z) : float := (Py.of_int k / 2)%float.

(** The two assignments to [self.charge] in [Paddle.update]:
    [min(self.charge + 1, self.max_charge)] while the key is held and
    [max(self.charge - 0.5, 0)] otherwise. *)
Definition charge_step (held : bool) (max_charge : Z) (charge : float) : float :=
  if held then
    let c := (charge + 1)%float in
    if (Py.of_int max_charge <? c)%float then Py.of_int max_charge else c
  else
    let c := (charge - 0.5)%float in
    if (c <? 0)%float then 0%float else c.

(** Keys for the examples. *)
Definition key_w : Paddle.keys := Paddle.mkKeys true false false.

Definition key_shift : Paddle.keys := Paddle.mkKeys false false true.

(** The test of the collision pass for one paddle. *)
Definition overlaps (s : Game.side) (g : Game.t) : bool :=
  Rect.colliderect (Ball.rect (Game.ball g)) (Paddle.rect (Game.paddle s g)).


(** The ball's rectangle, put at the screen's center, lies strictly
    between the left and right edges. *)
Definition fits_at_center (cfg : Settings) (rc : Rect.t) : Prop :=
  0 < WIDTH cfg `div` 2 - Rect.w rc ÷ 2
  ∧ WIDTH cfg `div` 2 - Rect.w rc ÷ 2 + Rect.w rc < WIDTH cfg.

(** Settings of a screen so narrow that the two paddles overlap, and a
    game on it. *)
Definition narrow : Settings :=
  mkSettings 120 600 60 15 90 15 7 default_ELEMENTS.

Definition narrow_game : Game.t :=
  Game.init poly_math narrow "Fire" "Time" a_reset_draw.

(** The ball's rectangle overlaps the power-up's. *)
Definition touches (b : Ball.t) (p : PowerUp.t) : bool :=
  Rect.colliderect (Ball.rect b) (PowerUp.rect p).

(** The power-ups that the loop of [_handle_powerups] visits: the listed
    ones and the one the pass may have appended. *)
Definition visited_powerups (i : World.frame_input) (w : World.t)
    : list PowerUp.t :=
  if (World.powerup_chance i <? 0.01)%float
  then World.powerups w ++ [PowerUp.init (World.powerup_spawn i)]
  else World.powerups w.

(** The rifts that the loop of [_handle_rifts] visits. *)
Definition visited_rifts (i : World.frame_input) (w : World.t)
    : list InterdimensionalRift.t :=
  if (World.rift_chance i <? 0.005)%float
  then World.rifts w ++ [InterdimensionalRift.init (World.rift_spawn i)]
  else World.rifts w.

(** What a rift is made of, apart from its particles. *)
Definition rift_shape (r : InterdimensionalRift.t) : Z * Z * Z * Z * Color :=
  (InterdimensionalRift.x r, InterdimensionalRift.y r,
   InterdimensionalRift.radius r, InterdimensionalRift.destination r,
   InterdimensionalRift.color r).

(** The test of [_handle_rifts] on the ball's rectangle. *)
Definition reaches (hypot : float → float → float) (rc : Rect.t)
    (r : InterdimensionalRift.t) : bool :=
  (hypot (Py.of_int (Rect.centerx rc - InterdimensionalRift.x r))
         (Py.of_int (Rect.centery rc - InterdimensionalRift.y r))
   <? Py.of_int (InterdimensionalRift.radius r))%float.

(** A world for the examples: a new game with one power-up of a type
    without effect lying on the ball, and one rift around the ball. *)
Definition a_powerup : PowerUp.t :=
  PowerUp.mk (Rect.mk 395 295 20 20) "Multi-ball" (mkColor 200 100 150) 0.

Definition a_rift : InterdimensionalRift.t :=
  InterdimensionalRift.mk 410 300 40 2 (mkColor 120 200 220) [].

Definition a_world : World.t :=
  World.mk new_game palette [a_powerup] [a_rift] 0 VisualEffects.init.

(** A stand-in for [math.hypot]: the square root of the sum of squares. *)
Definition sqrt_hypot (a b : float) : float :=
  PrimFloat.sqrt (a * a + b * b)%float.

(** Inputs of a frame in which nothing is spawned. *)
Definition quiet_frame : World.frame_input :=
  World.mkFrameInput no_keys 1000 (VisualEffects.mkUpdateDraw 0.5 45)
    no_spawn no_spawn quiet some_draws a_reset_draw
    0.5 (PowerUp.mkInitDraw 200 200 "Time Warp" (mkColor 100 100 100))
    (λ _, World.mkTouchDraw 1.25 (some_draws Game.Player))
    0.5 (InterdimensionalRift.mkInitDraw 150 150 30 1 (mkColor 100 100 100))
    (λ _, World.mkRiftDraw
            (InterdimensionalRift.mkUpdateDraw 0.5 1 a_particle_draw)
            (some_draws Game.AI)).

(** The visual effects through successive frames: the clock and the draws
    of each [update], first frame first. *)
Fixpoint effects_run (math : Math)
    (frames : list (Z * VisualEffects.update_draw)) (v : VisualEffects.t)
    : VisualEffects.t :=
  match frames with
  | [] => v
  | (ticks, d) :: rest =>
      effects_run math rest (VisualEffects.update math ticks d v)
  end.

(** The intensity is one of the three choices, and 0 while the
    kaleidoscope is off. *)
Definition tidy (v : VisualEffects.t) : Prop :=
  (VisualEffects.kaleidoscope v = false →
   VisualEffects.kaleidoscope_intensity v = 0)
  ∧ VisualEffects.kaleidoscope_intensity v ∈ [0; 45; 90].

(** A game through successive frames, first frame first. *)
Fixpoint world_run (math : Math) (hypot : float → float → float)
    (cfg : Settings) (inputs : list World.frame_input) (w : World.t)
    : option World.t :=
  match inputs with
  | [] => Some w
  | i :: rest =>
      w' ← World.update math hypot cfg i w;
      world_run math hypot cfg rest w'
  end.

(** The particles that the ball and the paddles create in this frame have
    a size from [randint(2, 5)]. *)
Definition frame_sized (i : World.frame_input) : Prop :=
  sized (Paddle.spawned (World.player_draw i))
  ∧ sized (Paddle.spawned (World.ai_draw i))
  ∧ sized (Ball.spawned (World.ball_draw i)).

(** The private particle lists of the ball and of the two paddles, each
    with items of pairwise different ages. *)
Definition lists_tracked (w : World.t) : Prop :=
  listed_since 1 (Ball.particles (Game.ball (World.game w)))
  ∧ listed_since 0 (Paddle.particles (Game.player_paddle (World.game w)))
  ∧ listed_since 0 (Paddle.particles (Game.ai_paddle (World.game w))).

(** Inputs of a frame in which the ball and both paddles spawn a particle
    of the largest size. *)
Definition busy_frame : World.frame_input :=
  World.mkFrameInput no_keys 1000 (VisualEffects.mkUpdateDraw 0.5 45)
    paddle_spawning paddle_spawning spawning some_draws a_reset_draw
    0.5 (PowerUp.mkInitDraw 200 200 "Time Warp" (mkColor 100 100 100))
    (λ _, World.mkTouchDraw 1.25 (some_draws Game.Player))
    0.5 (InterdimensionalRift.mkInitDraw 150 150 30 1 (mkColor 100 100 100))
    (λ _, World.mkRiftDraw
            (InterdimensionalRift.mkUpdateDraw 0.5 1 a_particle_draw)
            (some_draws Game.AI)).

(** ** Particles expire *)

Section particle_facts.
Context (math : Math).

Lemma size_after (n : nat) (p : Particle.t) :
  Particle.size (Particle.after math n p) = Nat.iter n shrink (Particle.size p).
Proof.
  induction n as [|n IH]; simpl; [reflexivity|].
  rewrite IH. reflexivity.
Qed.

Lemma expired_at_size (n : nat) (p : Particle.t) :
  Particle.expired_at math (S n) p
  = (Nat.iter (S n) shrink (Particle.size p) <=? 0)%float.
Proof.
  unfold Particle.expired_at. simpl. rewrite size_after. reflexivity.
Qed.

Lemma alive_before_spec (n : nat) (p : Particle.t) :
  alive_before n (Particle.size p) = true →
  ∀ k, (k ≤ n)%nat → Particle.expired_at math k p = false.
Proof.
  intros Hall [|k] Hk; [reflexivity|].
  rewrite expired_at_size.
  unfold alive_before in Hall. rewrite forallb_forall in Hall.
  specialize (Hall k). rewrite negb_true_iff in Hall.
  apply Hall. apply in_seq. lia.
Qed.

Lemma first_expiry (n : nat) (p : Particle.t) :
  alive_before n (Particle.size p) = true →
  (Nat.iter (S n) shrink (Particle.size p) <=? 0)%float = true →
  Particle.expired_at math (S n) p = true
  ∧ ∀ k, (k < S n)%nat → Particle.expired_at math k p = false.
Proof.
  intros Halive Hlast. split.
  - rewrite expired_at_size. exact Hlast.
  - intros k Hk. apply (alive_before_spec n p Halive). lia.
Qed.

(** C9.  A particle is created with an integer size between 2 and 5, and
    [update] takes 0.1 off each call.  Its [lifetime]-th call is the first
    one that returns [True] (size at most 0), and that number of calls is
    the size divided by 0.1, or one more: ten times the size for sizes 2,
    3 and 4, and 51 for size 5, where the binary rounding of 0.1 leaves a
    positive remainder after 50 calls. *)
Theorem C9_particle_expires (x y : float) (color : Z * Z * Z)
    (d : Particle.draw) :
  2 ≤ Particle.drawn_size d ≤ 5 →
  let p := Particle.init x y color d in
  let n := lifetime (Particle.drawn_size d) in
  Particle.expired_at math n p = true
  ∧ (∀ k, (k < n)%nat → Particle.expired_at math k p = false)
  ∧ 10 * Particle.drawn_size d ≤ Z.of_nat n ≤ 10 * Particle.drawn_size d + 1.
Proof.
  intros Hsize p n.
  assert (Hp : Particle.size p = Py.of_int (Particle.drawn_size d))
    by reflexivity.
  assert (Hcases : Particle.drawn_size d = 2 ∨ Particle.drawn_size d = 3
                   ∨ Particle.drawn_size d = 4 ∨ Particle.drawn_size d = 5)
    by lia.
  subst n.
  assert (Hbound : 10 * Particle.drawn_size d
                   ≤ Z.of_nat (lifetime (Particle.drawn_size d))
                   ≤ 10 * Particle.drawn_size d + 1)
    by (destruct Hcases as [E|[E|[E|E]]]; rewrite E; vm_compute;
        split; discriminate).
  enough (Particle.expired_at math (lifetime (Particle.drawn_size d)) p = true
          ∧ ∀ k, (k < lifetime (Particle.drawn_size d))%nat →
                 Particle.expired_at math k p = false) as [H1 H2]
    by (split; [exact H1 | split; [exact H2 | exact Hbound]]).
  clear Hbound.
  destruct Hcases as [E|[E|[E|E]]]; rewrite E in *.
  - change (lifetime 2) with 20%nat.
    apply first_expiry; rewrite Hp; vm_compute; reflexivity.
  - change (lifetime 3) with 30%nat.
    apply first_expiry; rewrite Hp; vm_compute; reflexivity.
  - change (lifetime 4) with 40%nat.
    apply first_expiry; rewrite Hp; vm_compute; reflexivity.
  - change (lifetime 5) with 51%nat.
    apply first_expiry; rewrite Hp; vm_compute; reflexivity.
Qed.
End particle_facts.

(** C9 at size 5: the 51st call is the first to report expiry. *)
Lemma C9_particle_expires_witness :
  Particle.expired_at poly_math 51 (Particle.init 0 0 (255, 100, 100)
                                      (Particle.mkDraw 5 2 1)) = true
  ∧ Particle.expired_at poly_math 50 (Particle.init 0 0 (255, 100, 100)
                                        (Particle.mkDraw 5 2 1)) = false.
Proof.
  pose proof (C9_particle_expires poly_math 0 0 (255, 100, 100)
                (Particle.mkDraw 5 2 1)) as H.
  simpl in H.
  destruct H as (Hlast & Hbefore & _); [lia|].
  split; [exact Hlast | apply Hbefore; vm_compute; lia].
Defined.

(** ** Configuration loading *)

(** With no entry in [CONFIG], every constant is its built-in default. *)
Lemma constants_empty : constants ∅ = Some defaults.
Proof. reflexivity. Qed.

Lemma load_config_raises (f : config_file) (e : exn) :
  (load_config f).2 = Raised e →
  open_and_load f = Raised e ∧ e ≠ FileNotFoundError ∧ (load_config f).1 = [].
Proof.
  unfold load_config.
  destruct (open_and_load f) as [d|e']; simpl; [discriminate|].
  destruct e'; simpl; intros H; inversion H; subst; done.
Qed.

(** C8, the claim as stated, fails on a file that exists and cannot be read:
    the [PermissionError] of [open] leaves [load_config], nothing is
    logged, no default is substituted and start-up ends with the exception.
    The same holds for a file that is not valid JSON. *)
Lemma C8_unreadable_file_not_recovered :
  startup (Unopenable PermissionError) = ([], Raised PermissionError)
  ∧ startup Undecodable = ([], Raised JSONDecodeError).
Proof. split; reflexivity. Qed.

(** C8, amended.  A missing settings file ([open] raises
    [FileNotFoundError]) is recovered locally: one record is logged, at
    level ERROR, [load_config] returns the empty dictionary, every constant
    takes its built-in default and start-up continues.  Every other failure
    to open or decode the file is not caught: [load_config] logs nothing
    and the exception ends start-up. *)
Theorem C8_missing_file_uses_defaults :
  load_config Absent
  = ([(ERROR, "Config file not found. Using default settings."%string)],
     Returned ∅)
  ∧ (∀ key dflt, CONFIG_get ∅ key dflt = dflt)
  ∧ startup Absent
    = ([(ERROR, "Config file not found. Using default settings."%string)],
       Returned (Some defaults))
  ∧ (∀ f e, open_and_load f = Raised e → e ≠ FileNotFoundError →
            startup f = ([], Raised e)).
Proof.
  split; [reflexivity|]. split; [reflexivity|]. split; [reflexivity|].
  intros f e Hopen Hne. unfold startup, load_config. rewrite Hopen.
  destruct e; done.
Qed.

Lemma C8_missing_file_uses_defaults_witness :
  startup (Unopenable IsADirectoryError) = ([], Raised IsADirectoryError).
Proof.
  apply (proj2 (proj2 (proj2 C8_missing_file_uses_defaults)));
    [reflexivity | discriminate].
Defined.

(** ** The ball: reset and trail *)

Section ball_facts.
Context (math : Math) (cfg : Settings).

(** [pygame.Rect]: the center that was set is the center that is read. *)
Lemma center_set_center (a : Rect.t) (c : Z * Z) :
  Rect.center (Rect.set_center a c) = c.
Proof.
  destruct c as [cx cy]. unfold Rect.center, Rect.centerx, Rect.centery.
  simpl. f_equal; lia.
Qed.

Lemma reset_center (d : Ball.reset_draw) (b : Ball.t) :
  Rect.center (Ball.rect (Ball.reset math cfg d b))
  = (WIDTH cfg `div` 2, HEIGHT cfg `div` 2).
Proof. apply center_set_center. Qed.

(** C10.  [Ball.reset] writes the rectangle's position, the velocity, the
    element tag and the dimension id, and nothing else: the trail, the
    particle list and the rectangle's size are those of the ball before
    the call.  So the scoring pass, which resets the ball, leaves the
    trail with the centers recorded before the reset. *)
Theorem C10_reset_keeps_trail_and_particles (d : Ball.reset_draw)
    (b : Ball.t) (g : Game.t) :
  Ball.trail (Ball.reset math cfg d b) = Ball.trail b
  ∧ Ball.particles (Ball.reset math cfg d b) = Ball.particles b
  ∧ Rect.w (Ball.rect (Ball.reset math cfg d b)) = Rect.w (Ball.rect b)
  ∧ Rect.h (Ball.rect (Ball.reset math cfg d b)) = Rect.h (Ball.rect b)
  ∧ Ball.trail (Game.ball (Game._update_game_state math cfg d g))
    = Ball.trail (Game.ball g)
  ∧ Ball.particles (Game.ball (Game._update_game_state math cfg d g))
    = Ball.particles (Game.ball g).
Proof.
  repeat split; try reflexivity;
    unfold Game._update_game_state; case_match; reflexivity.
Qed.
End ball_facts.

(** ** The scoring pass *)

Section scoring_facts.
Context (math : Math) (cfg : Settings).

(** C3.  When the ball's left edge is at or beyond x = 0 the scoring pass
    adds exactly 1 to the right side's score and leaves the left side's,
    puts the ball's center at the screen center and sets both combo
    meters to 0.  In every case neither score decreases, and the two
    scores together grow by 1 when the ball is out of bounds and by 0
    otherwise. *)
Theorem C3_scoring_pass (d : Ball.reset_draw) (g : Game.t) :
  let g' := Game._update_game_state math cfg d g in
  (Rect.left (Ball.rect (Game.ball g)) ≤ 0 →
     Game.score g' = ((Game.score g).1, (Game.score g).2 + 1)
     ∧ Rect.center (Ball.rect (Game.ball g'))
       = (WIDTH cfg `div` 2, HEIGHT cfg `div` 2)
     ∧ Paddle.combo_meter (Game.player_paddle g') = 0
     ∧ Paddle.combo_meter (Game.ai_paddle g') = 0)
  ∧ (Game.score g).1 ≤ (Game.score g').1
  ∧ (Game.score g).2 ≤ (Game.score g').2
  ∧ (Game.score g').1 + (Game.score g').2
    = (Game.score g).1 + (Game.score g).2
      + (if out_of_bounds cfg g then 1 else 0).
Proof.
  intros g'. subst g'. unfold out_of_bounds, Game._update_game_state.
  split.
  - intros Hleft. apply Z.leb_le in Hleft. rewrite Hleft. simpl.
    repeat split. apply center_set_center.
  - destruct (Rect.left (Ball.rect (Game.ball g)) <=? 0) eqn:Hl; simpl.
    + lia.
    + destruct (WIDTH cfg <=? Rect.right (Ball.rect (Game.ball g))); simpl; lia.
Qed.
End scoring_facts.

(** C3 on a new game whose ball has left the screen on the left. *)
Lemma C3_scoring_pass_witness :
  let g := with_ball (Rect.mk (-3) 200 15 15) (-5) 1 new_game in
  let g' := Game._update_game_state poly_math defaults a_reset_draw g in
  Game.score g' = (0, 1)
  ∧ Rect.center (Ball.rect (Game.ball g')) = (400, 300)
  ∧ Paddle.combo_meter (Game.player_paddle g') = 0
  ∧ Paddle.combo_meter (Game.ai_paddle g') = 0.
Proof.
  intros g g'.
  apply (proj1 (C3_scoring_pass poly_math defaults a_reset_draw g)).
  vm_compute. discriminate.
Defined.

(** ** The trail of the ball *)

Section trail_facts.
Context (math : Math) (cfg : Settings) (cm : DynamicColorManager).

Lemma update_trail (tf : float) (d : Ball.update_draw) (b b' : Ball.t) :
  Ball.update math cm tf d b = Some b' →
  Ball.trail b' = push_trail (Rect.center (Ball.rect b')) (Ball.trail b).
Proof.
  unfold Ball.update. intros H.
  destruct (Rect.add_x _ _) as [r1|]; simpl in H; [|discriminate].
  destruct (Rect.add_y _ _) as [r2|]; simpl in H; [|discriminate].
  match type of H with (?spawn ≫= _) = _ => destruct spawn as [ps|] end;
    simpl in H; [|discriminate].
  inversion H; subst; reflexivity.
Qed.

Lemma push_trail_take (c : Z * Z) (trail : list (Z * Z)) :
  (length trail ≤ 20)%nat → push_trail c trail = take 20 (c :: trail).
Proof.
  intros Hlen. unfold push_trail.
  destruct (20 <? length (c :: trail))%nat eqn:Hfull.
  - apply Nat.ltb_lt in Hfull. simpl in Hfull.
    rewrite removelast_firstn_len.
    replace (pred (length (c :: trail))) with 20%nat by (simpl; lia).
    reflexivity.
  - apply Nat.ltb_ge in Hfull. rewrite take_ge; [reflexivity | exact Hfull].
Qed.

Lemma take_cons_take (c : Z * Z) (hist : list (Z * Z)) :
  take 20 (c :: take 20 hist) = take 20 (c :: hist).
Proof.
  change (take 20 (c :: take 20 hist)) with (c :: take 19 (take 20 hist)).
  rewrite take_take. reflexivity.
Qed.

Lemma run_trail (calls : list call) :
  ∀ b recorded b' recorded',
    Ball.trail b = take 20 recorded →
    run math cfg cm calls b recorded = Some (b', recorded') →
    Ball.trail b' = take 20 recorded'.
Proof.
  induction calls as [|[tf d|d] rest IH]; intros b rec b' rec' Hinv Hrun;
    simpl in Hrun.
  - inversion Hrun; subst; exact Hinv.
  - destruct (Ball.update math cm tf d b) as [b1|] eqn:Hup;
      simpl in Hrun; [|discriminate].
    apply (IH _ _ _ _) in Hrun; [exact Hrun|].
    rewrite (update_trail _ _ _ _ Hup), push_trail_take.
    + rewrite Hinv. apply take_cons_take.
    + rewrite Hinv, length_take. lia.
  - apply (IH _ _ _ _) in Hrun; [exact Hrun|]. exact Hinv.
Qed.

(** C7.  Start from a ball with an empty trail, as [__init__] leaves it,
    and run any sequence of [update] and [reset] calls.  The trail is then
    the first 20 items of the list of recorded centers taken newest
    first: it has at most 20 items, item 0 is the center recorded by the
    last [update], and every later item is the center recorded by the
    [update] before.  A further [update] puts the ball's new center in
    front and keeps the 19 most recent earlier ones in their order. *)
Theorem C7_trail_newest_first (calls : list call) (b b' : Ball.t)
    (recorded : list (Z * Z)) :
  Ball.trail b = [] →
  run math cfg cm calls b [] = Some (b', recorded) →
  Ball.trail b' = take 20 recorded
  ∧ (length (Ball.trail b') ≤ 20)%nat
  ∧ ∀ tf d b'', Ball.update math cm tf d b' = Some b'' →
      Ball.trail b'' = take 20 (Rect.center (Ball.rect b'') :: Ball.trail b')
      ∧ (length (Ball.trail b'') ≤ 20)%nat.
Proof.
  intros Hfresh Hrun.
  assert (Htrail : Ball.trail b' = take 20 recorded)
    by (apply (run_trail calls b [] b' recorded); [rewrite Hfresh|]; done).
  assert (Hlen : (length (Ball.trail b') ≤ 20)%nat)
    by (rewrite Htrail, length_take; lia).
  split; [exact Htrail|]. split; [exact Hlen|].
  intros tf d b'' Hup.
  rewrite (update_trail _ _ _ _ Hup), push_trail_take by exact Hlen.
  split; [reflexivity|]. rewrite length_take. lia.
Qed.
End trail_facts.

(** C7 on the ball of a new game: 25 updates, a reset and one more update
    leave a trail of 20 centers whose first item is the ball's center. *)
Lemma C7_trail_newest_first_witness :
  ∃ b recorded,
    run poly_math defaults palette
        (replicate 25 (Update 1 quiet) ++ [Reset a_reset_draw; Update 1 quiet])
        (Game.ball new_game) [] = Some (b, recorded)
    ∧ length recorded = 26%nat
    ∧ Ball.trail b = take 20 recorded
    ∧ (length (Ball.trail b) ≤ 20)%nat
    ∧ head (Ball.trail b) = Some (Rect.center (Ball.rect b)).
Proof.
  destruct (run poly_math defaults palette
              (replicate 25 (Update 1 quiet) ++ [Reset a_reset_draw; Update 1 quiet])
              (Game.ball new_game) []) as [[b recorded]|] eqn:Hrun;
    [| vm_compute in Hrun; discriminate].
  exists b, recorded.
  destruct (C7_trail_newest_first poly_math defaults palette _
              (Game.ball new_game) b recorded eq_refl Hrun)
    as (Htrail & Hlen & _).
  split; [reflexivity|].
  assert (Hval : Some (b, recorded) = Some (b, recorded)) by reflexivity.
  rewrite <- Hrun in Hval at 1. vm_compute in Hval.
  inversion Hval; subst.
  split; [vm_compute; reflexivity|]. split; [exact Htrail|].
  split; [exact Hlen|]. vm_compute; reflexivity.
Defined.


(** ** The collision pass *)

Section collision_facts.
Context (cfg : Settings) (cm : DynamicColorManager).


(** One iteration of the loop over the paddles, when the ball overlaps the
    paddle of that iteration. *)
Lemma collide_hit (s : Game.side) (draws : nat → Particle.draw) (g : Game.t)
    (c : Z * Z * Z) :
  Rect.colliderect (Ball.rect (Game.ball g)) (Paddle.rect (Game.paddle s g)) = true →
  DynamicColorManager_get cm (Ball.element (Game.ball g)) = Some c →
  ∃ g', Game._collide cm s draws g = Some g'
    ∧ Game.ball g' = Game.set_dx (Ball.dx (Game.ball g) * -1.1)%float (Game.ball g)
    ∧ Paddle.combo_meter (Game.paddle s g') = Paddle.combo_meter (Game.paddle s g) + 1
    ∧ Paddle.combo_multiplier (Game.paddle s g')
      = Game.multiplier_of (Paddle.combo_meter (Game.paddle s g) + 1)
    ∧ Paddle.rect (Game.paddle s g') = Paddle.rect (Game.paddle s g)
    ∧ Game.paddle (Game.other s) g' = Game.paddle (Game.other s) g
    ∧ Game.score g' = Game.score g
    ∧ Game.particles g' = Game.particles g ++ burst g c draws 20.
Proof.
  intros Hhit Hcolor. unfold Game._collide. rewrite Hhit.
  unfold Game._create_collision_particles.
  destruct s; simpl in *; rewrite Hcolor; simpl;
    eexists; (split; [reflexivity|]); simpl; repeat split.
Qed.


Lemma after_walls_frame (g : Game.t) :
  Ball.rect (Game.ball (after_walls cfg g)) = Ball.rect (Game.ball g)
  ∧ Ball.dx (Game.ball (after_walls cfg g)) = Ball.dx (Game.ball g)
  ∧ Ball.element (Game.ball (after_walls cfg g)) = Ball.element (Game.ball g)
  ∧ Game.player_paddle (after_walls cfg g) = Game.player_paddle g
  ∧ Game.ai_paddle (after_walls cfg g) = Game.ai_paddle g
  ∧ Game.score (after_walls cfg g) = Game.score g
  ∧ Game.particles (after_walls cfg g) = Game.particles g.
Proof. unfold after_walls. case_match; repeat split. Qed.

Lemma handle_collisions_unfold (draws : Game.side → nat → Particle.draw)
    (g : Game.t) :
  Game._handle_collisions cfg cm draws g
  = Game._collide cm Game.Player (draws Game.Player) (after_walls cfg g)
    ≫= Game._collide cm Game.AI (draws Game.AI).
Proof. reflexivity. Qed.

End collision_facts.



(** ** Wall reflection over one frame *)

Section wall_facts.
Context (math : Math) (cfg : Settings) (cm : DynamicColorManager).






End wall_facts.




(** ** The combo multiplier across the two passes *)

(** The scoring pass writes the combo meters and never the multipliers. *)
Lemma scoring_keeps_multiplier (math : Math) (cfg : Settings)
    (d : Ball.reset_draw) (g : Game.t) (s : Game.side) :
  Paddle.combo_multiplier (Game.paddle s (Game._update_game_state math cfg d g))
  = Paddle.combo_multiplier (Game.paddle s g).
Proof.
  unfold Game._update_game_state. case_match; destruct s; reflexivity.
Qed.

(** C2 fails on the code.  After three hits the player's paddle has combo
    meter 3 and multiplier [1 + (3 // 3) * 0.2 = 1.2].  When the ball then
    leaves on the left, the scoring pass sets the meter to 0 and leaves
    the multiplier at 1.2, whereas [1 + (0 // 3) * 0.2] is 1. *)
Theorem C2_multiplier_stale_after_score :
  ∃ g, three_hits = Some g
    ∧ Paddle.combo_meter (Game.player_paddle g) = 3
    ∧ Paddle.combo_multiplier (Game.player_paddle g) = Game.multiplier_of 3
    ∧ let g' := Game._update_game_state poly_math defaults a_reset_draw
                  (with_ball (Rect.mk (-3) 280 15 15) (Ball.dx (Game.ball g)) 1 g) in
      Paddle.combo_meter (Game.player_paddle g') = 0
      ∧ Paddle.combo_multiplier (Game.player_paddle g') = 1.2%float
      ∧ Game.multiplier_of (Paddle.combo_meter (Game.player_paddle g')) = 1%float
      ∧ Paddle.combo_multiplier (Game.player_paddle g')
        ≠ Game.multiplier_of (Paddle.combo_meter (Game.player_paddle g')).
Proof.
  eexists. split; [vm_compute; reflexivity|].
  split; [reflexivity|]. split; [vm_compute; reflexivity|].
  split; [reflexivity|]. split; [vm_compute; reflexivity|].
  split; [vm_compute; reflexivity|].
  intros H. apply (f_equal (λ v, (v <=? 1)%float)) in H.
  vm_compute in H. discriminate.
Qed.

(** ** Paddles and the screen bounds *)

(** The AI paddle moves up by the whole [AI_SPEED] whenever its top is
    positive, however small: from a top between 1 and [AI_SPEED - 1] the
    move ends above the screen. *)
Lemma ai_move_up (cfg : Settings) (ball : Ball.t) (p : Paddle.t) :
  Rect.centery (Ball.rect ball) < Rect.centery (Paddle.rect p) →
  0 < Rect.top (Paddle.rect p) →
  Rect.top (Paddle.rect (Paddle._ai_move cfg ball p))
  = Rect.top (Paddle.rect p) - AI_SPEED cfg.
Proof.
  intros Hball Htop. unfold Paddle._ai_move.
  replace (Rect.centery (Paddle.rect p) <? Rect.centery (Ball.rect ball))
    with false by (symmetry; apply Z.ltb_ge; lia).
  replace (Rect.centery (Ball.rect ball) <? Rect.centery (Paddle.rect p))
    with true by (symmetry; apply Z.ltb_lt; lia).
  replace (0 <? Rect.top (Paddle.rect p))
    with true by (symmetry; apply Z.ltb_lt; lia).
  simpl. unfold Rect.top. simpl. lia.
Qed.

(** With the default settings the player's paddle does stay on the screen:
    it starts at [y = 255] and moves by 5, and both 0 and [600 - 90] are
    multiples of 5 away. *)
Lemma player_stays_on_screen (k : Paddle.keys) (p : Paddle.t) :
  Rect.h (Paddle.rect p) = 90 →
  (0 ≤ Rect.y (Paddle.rect p) ≤ 510 ∧ Rect.y (Paddle.rect p) `mod` 5 = 0) →
  let p' := Paddle._player_move defaults k p in
  Rect.h (Paddle.rect p') = 90
  ∧ 0 ≤ Rect.top (Paddle.rect p')
  ∧ Rect.bottom (Paddle.rect p') ≤ HEIGHT defaults
  ∧ Rect.y (Paddle.rect p') `mod` 5 = 0.
Proof.
  intros Hh [Hy Hmod] p'. subst p'.
  unfold Paddle._player_move, Paddle.move, Rect.top, Rect.bottom.
  destruct (Paddle.K_w k && (0 <? Rect.y (Paddle.rect p))) eqn:Hup; simpl.
  - apply andb_true_iff in Hup as [_ Hup]. apply Z.ltb_lt in Hup.
    destruct (Paddle.K_s k && _) eqn:Hdown; simpl; rewrite Hh;
      (split; [reflexivity|]); repeat split;
      try (apply andb_true_iff in Hdown as [_ Hdown]; apply Z.ltb_lt in Hdown;
           simpl in Hdown);
      change (HEIGHT defaults) with 600 in *;
      Z.div_mod_to_equations; lia.
  - assert (Hstay : Paddle.K_w k = false ∨ Rect.y (Paddle.rect p) = 0).
    { apply andb_false_iff in Hup as [Hup|Hup]; [left; exact Hup|].
      right. apply Z.ltb_ge in Hup. lia. }
    destruct (Paddle.K_s k && _) eqn:Hdown; simpl; rewrite Hh;
      (split; [reflexivity|]); repeat split;
      try (apply andb_true_iff in Hdown as [_ Hdown]; apply Z.ltb_lt in Hdown;
           simpl in Hdown);
      change (HEIGHT defaults) with 600 in *;
      Z.div_mod_to_equations; lia.
Qed.

(** C5 fails on the code for the AI paddle.  With the default settings the
    paddle starts at [y = 255] and moves by 7.  While the ball's center is
    above the paddle's, 36 updates bring its top to 3, still on the
    screen, and the 37th moves it to -4.  While the ball's center is
    below, 37 updates bring its bottom to 604, past the height 600. *)
Theorem C5_ai_paddle_leaves_screen :
  (∃ p, chase 36 (ball_at (Rect.mk 392 0 15 15)) (Game.ai_paddle new_game) = Some p
        ∧ Rect.top (Paddle.rect p) = 3)
  ∧ (∃ p, chase 37 (ball_at (Rect.mk 392 0 15 15)) (Game.ai_paddle new_game) = Some p
          ∧ Rect.top (Paddle.rect p) = -4)
  ∧ (∃ p, chase 37 (ball_at (Rect.mk 392 585 15 15)) (Game.ai_paddle new_game) = Some p
          ∧ Rect.bottom (Paddle.rect p) = 604
          ∧ HEIGHT defaults = 600).
Proof.
  split; [|split]; eexists; (split; [vm_compute; reflexivity|]);
    [reflexivity | reflexivity | split; reflexivity].
Qed.


(** ** The colour cycler *)

Section cycler_facts.
Context (elements : list string).

Lemma recolor_eq (sh : float) (c : Color) :
  recolor sh c
  = colorsys.hsv_to_rgb (Py.mod1 (hue c + sh)) (saturation c) (value c)
    ≫= quantize.
Proof.
  unfold recolor, hue, saturation, value.
  destruct (hsv_of c) as [[h s] v]. reflexivity.
Qed.

(** The loop replaces the colour of every listed tag, once, and leaves the
    other entries. *)
Lemma recolor_all_lookup (sh : float) (els : list string) :
  ∀ (cs cs' : gmap string Color),
    NoDup els →
    recolor_all sh els cs = Some cs' →
    ∀ e : string,
      cs' !! e = if decide (e ∈ els) then cs !! e ≫= recolor sh else cs !! e.
Proof.
  induction els as [|e0 rest IH]; intros cs cs' Hnodup Hrun e; simpl in Hrun.
  - inversion Hrun; subst. rewrite decide_False by apply not_elem_of_nil.
    reflexivity.
  - apply NoDup_cons in Hnodup as [Hfresh Hnodup].
    destruct (cs !! e0) as [c|] eqn:Hc; simpl in Hrun; [|discriminate].
    destruct (recolor sh c) as [c'|] eqn:Hc'; simpl in Hrun; [|discriminate].
    rewrite (IH _ _ Hnodup Hrun e).
    destruct (decide (e = e0)) as [->|Hne].
    + rewrite decide_False by exact Hfresh.
      rewrite decide_True by apply list_elem_of_here.
      rewrite lookup_insert_eq, Hc. simpl. symmetry. exact Hc'.
    + rewrite lookup_insert_ne by congruence.
      destruct (decide (e ∈ rest)) as [Hin|Hout].
      * rewrite decide_True by (apply list_elem_of_further; exact Hin).
        reflexivity.
      * rewrite decide_False; [reflexivity|].
        intros Hin. apply elem_of_cons in Hin as [?|?]; done.
Qed.

Lemma recolor_all_defined (sh : float) (els : list string) :
  ∀ (cs cs' : gmap string Color),
    NoDup els →
    recolor_all sh els cs = Some cs' →
    ∀ e : string, e ∈ els → is_Some (cs' !! e).
Proof.
  induction els as [|e0 rest IH]; intros cs cs' Hnodup Hrun e Hin;
    [apply elem_of_nil in Hin; done|].
  apply NoDup_cons in Hnodup as [Hfresh Hnodup]. simpl in Hrun.
  destruct (cs !! e0) as [c|] eqn:Hc; simpl in Hrun; [|discriminate].
  destruct (recolor sh c) as [c'|] eqn:Hc'; simpl in Hrun; [|discriminate].
  destruct (decide (e ∈ rest)) as [Hrest|Hrest];
    [exact (IH _ _ Hnodup Hrun e Hrest)|].
  apply elem_of_cons in Hin as [->|?]; [|done].
  rewrite (recolor_all_lookup _ _ _ _ Hnodup Hrun e0).
  rewrite decide_False by exact Hrest.
  rewrite lookup_insert_eq. eauto.
Qed.

Lemma update_shift (m m' : DynamicColorManager) :
  DynamicColorManager_update elements m = Some m' →
  shift m' = accumulate (shift m)
  ∧ recolor_all (accumulate (shift m)) elements (colors m) = Some (colors m').
Proof.
  unfold DynamicColorManager_update. intros H.
  destruct (recolor_all _ _ _) as [cs|] eqn:Hcs; simpl in H; [|discriminate].
  inversion H; subst. simpl. done.
Qed.

Lemma updates_shift (n : nat) :
  ∀ m m', updates elements n m = Some m' →
          shift m' = Nat.iter n accumulate (shift m).
Proof.
  induction n as [|n IH]; intros m m' H; simpl in H.
  - inversion H; reflexivity.
  - destruct (updates elements n m) as [m1|] eqn:H1; simpl in H; [|discriminate].
    apply update_shift in H as [H _]. rewrite H, (IH _ _ H1). reflexivity.
Qed.

(** C1, amended.  For a catalog without repeated tags and any of its tags:
    after [n] calls of [update] followed by one more, the accumulator is
    the initial one with 0.01 added [n + 1] times, and the last call
    replaced the colour [c] that the [n] earlier calls had stored by the
    colour with hue [(hue(c) + accumulator) % 1.0] and the saturation and
    value of [c], each channel truncated to an integer.  Each call thus
    turns the hue already turned by the earlier calls, and by the whole
    accumulated shift rather than by 0.01. *)
Theorem C1_update_adds_accumulated_shift (n : nat)
    (m m' m'' : DynamicColorManager) (e : string) :
  NoDup elements →
  e ∈ elements →
  updates elements n m = Some m' →
  DynamicColorManager_update elements m' = Some m'' →
  shift m'' = Nat.iter (S n) accumulate (shift m)
  ∧ ∃ c c', colors m' !! e = Some c
      ∧ colors m'' !! e = Some c'
      ∧ colorsys.hsv_to_rgb (Py.mod1 (hue c + shift m'')) (saturation c) (value c)
        ≫= quantize = Some c'.
Proof.
  intros Hnodup Hin Hn Hlast.
  apply update_shift in Hlast as [Hshift Hcolors].
  split; [rewrite Hshift, (updates_shift _ _ _ Hn); reflexivity|].
  pose proof (recolor_all_lookup _ _ _ _ Hnodup Hcolors e) as Hlook.
  rewrite decide_True in Hlook by exact Hin.
  assert (Hsome : is_Some (colors m'' !! e))
    by exact (recolor_all_defined _ _ _ _ Hnodup Hcolors e Hin).
  destruct Hsome as [c' Hc']. rewrite Hc' in Hlook.
  destruct (colors m' !! e) as [c|]; simpl in Hlook; [|discriminate].
  exists c, c'. rewrite Hshift, <- recolor_eq. done.
Qed.
End cycler_facts.

(** C1, the claim as stated, fails.  Start the cycler with accumulator 0
    and the tag "Fire" at the colour (255, 100, 100), whose hue is 0.  The
    claim puts the hue after 10 calls at [(0 + 0.01 * 10) % 1.0 = 0.1].
    The stored colour after 10 calls is (97, 208, 255), whose hue is
    about 0.55 = 0.01 * (1 + 2 + ... + 10): it is more than 0.4 of a turn
    away from 0.1 in either direction, far beyond the step of the 8-bit
    channels.  The grey "Void" keeps hue 0 throughout. *)
Lemma C1_hue_not_linear_in_calls :
  ∃ m c0 c grey,
    colors palette !! "Fire"%string = Some c0
    ∧ updates default_ELEMENTS 10 palette = Some m
    ∧ colors m !! "Fire"%string = Some c
    ∧ colors m !! "Void"%string = Some grey
    ∧ (let claimed := Py.mod1 (hue c0 + 0.01 * 10) in
       ((0.4 <? hue c - claimed) && (hue c - claimed <? 0.6))%float = true
       ∧ ((0.09 <? claimed) && (hue grey =? 0))%float = true).
Proof.
  do 4 eexists.
  split; [vm_compute; reflexivity|].
  split; [vm_compute; reflexivity|].
  split; [vm_compute; reflexivity|].
  split; [vm_compute; reflexivity|].
  split; vm_compute; reflexivity.
Qed.

Lemma default_ELEMENTS_NoDup : NoDup default_ELEMENTS.
Proof. refine (bool_decide_unpack _ _). vm_compute. exact I. Qed.

(** C1 amended, on the default catalog: the second call of [update] and
    the tag "Fire". *)
Lemma C1_update_adds_accumulated_shift_witness :
  ∃ m' m'',
    updates default_ELEMENTS 1 palette = Some m'
    ∧ DynamicColorManager_update default_ELEMENTS m' = Some m''
    ∧ shift m'' = accumulate (accumulate 0)
    ∧ ∃ c c', colors m' !! "Fire"%string = Some c
        ∧ colors m'' !! "Fire"%string = Some c'
        ∧ colorsys.hsv_to_rgb (Py.mod1 (hue c + shift m'')) (saturation c) (value c)
          ≫= quantize = Some c'.
Proof.
  assert (Hrun : ∃ m' m'',
             updates default_ELEMENTS 1 palette = Some m'
             ∧ DynamicColorManager_update default_ELEMENTS m' = Some m'')
    by (do 2 eexists; split; [vm_compute; reflexivity | vm_compute; reflexivity]).
  destruct Hrun as (m' & m'' & H1 & H2).
  exists m', m''. split; [exact H1|]. split; [exact H2|].
  apply (C1_update_adds_accumulated_shift default_ELEMENTS 1 palette m' m''
           "Fire" default_ELEMENTS_NoDup);
    [refine (bool_decide_unpack _ _); vm_compute; exact I | exact H1 | exact H2].
Defined.


(** ** Particle lists *)

Section particle_list_facts.
Context (math : Math).

Lemma age_cons (p : Particle.t) (ps : list Particle.t) :
  Particle.age math (p :: ps)
  = if (Particle.size (Particle.update math p).1 <=? 0)%float
    then Particle.age math ps
    else (Particle.update math p).1 :: Particle.age math ps.
Proof. reflexivity. Qed.

(** X1.  The comprehension [[p for p in particles if not p.update()]]
    updates every particle once and keeps, in their order, exactly those
    whose size is still positive: no kept particle has size at most 0, the
    result is a sublist of the updated particles, and no updated particle
    of positive size is dropped. *)
Theorem age_keeps_exactly_the_live (ps : list Particle.t) :
  Forall (λ q, (Particle.size q <=? 0)%float = false) (Particle.age math ps)
  ∧ Particle.age math ps `sublist_of` ((λ p, (Particle.update math p).1) <$> ps)
  ∧ (length (Particle.age math ps) ≤ length ps)%nat
  ∧ ∀ p, p ∈ ps →
         (Particle.size (Particle.update math p).1 <=? 0)%float = false →
         (Particle.update math p).1 ∈ Particle.age math ps.
Proof.
  induction ps as [|p ps (IHlive & IHsub & IHlen & IHkeep)].
  - split; [constructor|]. split; [constructor|]. split; [reflexivity|].
    intros p Hp. inversion Hp.
  - rewrite age_cons.
    destruct (Particle.size (Particle.update math p).1 <=? 0)%float eqn:Hexp.
    + split; [exact IHlive|]. split; [apply sublist_cons; exact IHsub|].
      split; [simpl; lia|].
      intros q Hq Hlive. apply elem_of_cons in Hq as [->|Hq];
        [congruence | exact (IHkeep q Hq Hlive)].
    + split; [constructor; assumption|].
      split; [apply sublist_skip; exact IHsub|].
      split; [simpl; lia|].
      intros q Hq Hlive. apply elem_of_cons in Hq as [->|Hq];
        [apply list_elem_of_here | apply list_elem_of_further, (IHkeep q Hq Hlive)].
Qed.

Lemma alive_before_S (k : nat) (s : float) :
  alive_before (S k) s
  = alive_before k s && negb (Nat.iter (S k) shrink s <=? 0)%float.
Proof.
  unfold alive_before. rewrite seq_S, forallb_app. simpl.
  rewrite andb_true_r. reflexivity.
Qed.

Lemma alive_before_at (k j : nat) (s : float) :
  alive_before k s = true → (j < k)%nat →
  (Nat.iter (S j) shrink s <=? 0)%float = false.
Proof.
  unfold alive_before. intros Hall Hj. rewrite forallb_forall in Hall.
  apply negb_true_iff, Hall, in_seq. lia.
Qed.

(** A particle that is still listed has been through at most 50 updates:
    its size reaches 0 at the latest on the 51st. *)
Lemma born_young (s0 : Z) (k : nat) (p : Particle.t) :
  born s0 k p → (k ≤ 50)%nat.
Proof.
  intros (Hs0 & _ & Halive).
  destruct (decide (k ≤ 50)%nat) as [?|Hold]; [assumption|exfalso].
  assert (Hcases : s0 = 2 ∨ s0 = 3 ∨ s0 = 4 ∨ s0 = 5) by lia.
  destruct Hcases as [-> | [-> | [-> | ->]]].
  - pose proof (alive_before_at k 19 _ Halive ltac:(lia)) as H.
    vm_compute in H. discriminate.
  - pose proof (alive_before_at k 29 _ Halive ltac:(lia)) as H.
    vm_compute in H. discriminate.
  - pose proof (alive_before_at k 39 _ Halive ltac:(lia)) as H.
    vm_compute in H. discriminate.
  - pose proof (alive_before_at k 50 _ Halive ltac:(lia)) as H.
    vm_compute in H. discriminate.
Qed.

Lemma born_init (x y : float) (c : Z * Z * Z) (d : Particle.draw) :
  sized d → born (Particle.drawn_size d) 0 (Particle.init x y c d).
Proof. intros Hd. split; [exact Hd|]. split; reflexivity. Qed.

(** Aging a tracked list: the survivors are one update older. *)
Lemma age_tracked (ps : list Particle.t) (ages : list nat) :
  tracked ps ages →
  ∃ ages', tracked (Particle.age math ps) ages'
           ∧ ages' `sublist_of` (S <$> ages).
Proof.
  induction 1 as [|p k ps ages (s0 & Hs0 & Hsize & Halive) _ (ages' & Htr & Hsub)].
  - exists []. split; constructor.
  - rewrite age_cons.
    destruct (Particle.size (Particle.update math p).1 <=? 0)%float eqn:Hexp.
    + exists ages'. split; [exact Htr|]. apply sublist_cons. exact Hsub.
    + exists (S k :: ages'). split; [|apply sublist_skip; exact Hsub].
      constructor; [|exact Htr]. exists s0.
      assert (Hsize' : Particle.size (Particle.update math p).1
                       = Nat.iter (S k) shrink (Py.of_int s0))
        by (simpl; rewrite Hsize; reflexivity).
      split; [exact Hs0|]. split; [exact Hsize'|].
      rewrite alive_before_S, Halive, <- Hsize', Hexp. reflexivity.
Qed.

Lemma tracked_aged_NoDup (ages ages' : list nat) :
  NoDup ages → ages' `sublist_of` (S <$> ages) →
  NoDup ages' ∧ Forall (λ k, 1 ≤ k)%nat ages'.
Proof.
  intros Hnd Hsub. split.
  - apply (sublist_NoDup _ (S <$> ages)); [|exact Hsub].
    apply NoDup_fmap_2; [apply _ | exact Hnd].
  - apply Forall_forall. intros k Hk.
    apply (elem_of_sublist _ _ _ Hk) in Hsub.
    apply list_elem_of_fmap in Hsub as (j & -> & _). lia.
Qed.

Lemma tracked_length (ps : list Particle.t) (ages : list nat) (lo n : nat) :
  tracked ps ages → NoDup ages →
  Forall (λ k, lo ≤ k < lo + n)%nat ages →
  (length ps ≤ n)%nat.
Proof.
  intros Htr Hnd Hrange. rewrite (Forall2_length _ _ _ Htr).
  assert (Hle : (length ages ≤ length (seq lo n))%nat).
  { apply submseteq_length, NoDup_submseteq; [exact Hnd|].
    intros k Hk. apply elem_of_seq. rewrite Forall_forall in Hrange.
    apply (Hrange k Hk). }
  rewrite length_seq in Hle. exact Hle.
Qed.

Lemma tracked_young (ps : list Particle.t) (ages : list nat) :
  tracked ps ages → Forall (λ k, k ≤ 50)%nat ages.
Proof.
  induction 1 as [|p k ps ages (s0 & Hborn) _ IH]; constructor;
    [exact (born_young _ _ _ Hborn) | exact IH].
Qed.
End particle_list_facts.

Section particle_bound_facts.
Context (math : Math) (cfg : Settings) (cm : DynamicColorManager).

Lemma listed_length (lo : nat) (ps : list Particle.t) :
  listed_since lo ps → (length ps ≤ 51 - lo)%nat.
Proof.
  intros (ages & Htr & Hnd & Hlo).
  destruct (decide (lo ≤ 51)%nat) as [Hle|Hgt].
  - apply (tracked_length ps ages lo (51 - lo) Htr Hnd).
    pose proof (tracked_young ps ages Htr) as Hyoung.
    rewrite Forall_forall in *. intros k Hk.
    specialize (Hlo k Hk). specialize (Hyoung k Hk). lia.
  - destruct ages as [|k ages].
    + inversion Htr; subst. simpl. lia.
    + pose proof (tracked_young _ _ Htr) as Hyoung.
      inversion Hyoung; subst. inversion Hlo; subst. lia.
Qed.

Lemma listed_age (ps : list Particle.t) :
  listed_since 0 ps → listed_since 1 (Particle.age math ps).
Proof.
  intros (ages & Htr & Hnd & _).
  destruct (age_tracked math ps ages Htr) as (ages' & Htr' & Hsub).
  destruct (tracked_aged_NoDup ages ages' Hnd Hsub) as [Hnd' Hpos].
  exists ages'. done.
Qed.

Lemma listed_spawn (ps : list Particle.t) (x y : float) (c : Z * Z * Z)
    (d : Particle.draw) :
  listed_since 1 ps → sized d →
  listed_since 0 (ps ++ [Particle.init x y c d]).
Proof.
  intros (ages & Htr & Hnd & Hpos) Hd. exists (ages ++ [0%nat]).
  split; [|split].
  - apply Forall2_app; [exact Htr|]. constructor; [|constructor].
    exists (Particle.drawn_size d). apply born_init. exact Hd.
  - apply NoDup_app. split; [exact Hnd|]. split; [|apply NoDup_singleton].
    intros k Hk Hk0. apply list_elem_of_singleton in Hk0 as ->.
    rewrite Forall_forall in Hpos. specialize (Hpos _ Hk). lia.
  - apply Forall_forall. intros; lia.
Qed.

Lemma listed_weaken (ps : list Particle.t) :
  listed_since 1 ps → listed_since 0 ps.
Proof.
  intros (ages & Htr & Hnd & _). exists ages.
  split; [exact Htr|]. split; [exact Hnd|]. apply Forall_forall. intros; lia.
Qed.

Lemma listed_nil (lo : nat) : listed_since lo [].
Proof. exists []. split; [constructor|]. split; constructor. Qed.

(** The particle list that [Ball.update] leaves. *)
Lemma update_particles (tf : float) (d : Ball.update_draw) (b b' : Ball.t) :
  Ball.update math cm tf d b = Some b' →
  Ball.particles b' = Particle.age math (Ball.particles b)
  ∨ ∃ x y c, Ball.particles b'
             = Particle.age math (Ball.particles b
                                  ++ [Particle.init x y c (Ball.spawned d)]).
Proof.
  unfold Ball.update. intros H.
  destruct (Rect.add_x _ _) as [r1|]; simpl in H; [|discriminate].
  destruct (Rect.add_y _ _) as [r2|]; simpl in H; [|discriminate].
  destruct (Ball.chance d <? 0.2)%float.
  - destruct (DynamicColorManager_get cm (Ball.element b)) as [c|];
      simpl in H; [|discriminate].
    inversion H; subst; simpl. right. eauto.
  - simpl in H. inversion H; subst; simpl. left. reflexivity.
Qed.

Lemma update_listed (tf : float) (d : Ball.update_draw) (b b' : Ball.t) :
  sized (Ball.spawned d) →
  Ball.update math cm tf d b = Some b' →
  listed_since 1 (Ball.particles b) → listed_since 1 (Ball.particles b').
Proof.
  intros Hd Hup Hinv.
  destruct (update_particles tf d b b' Hup) as [-> | (x & y & c & ->)].
  - apply listed_age, listed_weaken, Hinv.
  - apply listed_age, listed_spawn; assumption.
Qed.

Lemma run_listed (calls : list call) :
  ∀ b recorded b' recorded',
    Forall call_sized calls →
    listed_since 1 (Ball.particles b) →
    run math cfg cm calls b recorded = Some (b', recorded') →
    listed_since 1 (Ball.particles b').
Proof.
  induction calls as [|[tf d|d] rest IH]; intros b rec b' rec' Hsized Hinv Hrun;
    simpl in Hrun.
  - inversion Hrun; subst; exact Hinv.
  - inversion Hsized as [|? ? Hd Hrest]; subst. simpl in Hd.
    destruct (Ball.update math cm tf d b) as [b1|] eqn:Hup;
      simpl in Hrun; [|discriminate].
    exact (IH _ _ _ _ Hrest (update_listed tf d b b1 Hd Hup Hinv) Hrun).
  - inversion Hsized as [|? ? _ Hrest]; subst.
    exact (IH (Ball.reset math cfg d b) _ _ _ Hrest Hinv Hrun).
Qed.

(** X2.  The ball's own particle list stays bounded.  Start from a ball
    without particles, as [__init__] leaves it, and run any sequence of
    [update] and [reset] calls whose particles are created with a size
    from [randint(2, 5)]: the list never holds more than 50 particles,
    because [update] spawns at most one per call and each one is dropped
    within 51 calls. *)
Theorem ball_particles_bounded (calls : list call) (b b' : Ball.t)
    (recorded : list (Z * Z)) :
  Ball.particles b = [] →
  Forall call_sized calls →
  run math cfg cm calls b [] = Some (b', recorded) →
  (length (Ball.particles b') ≤ 50)%nat.
Proof.
  intros Hempty Hsized Hrun.
  apply (listed_length 1), (run_listed calls b [] b' recorded Hsized);
    [rewrite Hempty; apply listed_nil | exact Hrun].
Qed.

(** The particle list that [Paddle.update] leaves. *)
Lemma paddle_update_particles (k : Paddle.keys) (ball : Ball.t)
    (d : Paddle.update_draw) (p p' : Paddle.t) :
  Paddle.update math cfg cm k ball d p = Some p' →
  Paddle.particles p' = Particle.age math (Paddle.particles p)
  ∨ ∃ x y c, Paddle.particles p'
             = Particle.age math (Paddle.particles p)
               ++ [Particle.init x y c (Paddle.spawned d)].
Proof.
  unfold Paddle.update, Paddle._update_particles. intros H.
  assert (Hps : Paddle.particles
                  (if negb (Paddle.is_ai p) then Paddle._player_move cfg k p
                   else Paddle._ai_move cfg ball p)
                = Paddle.particles p).
  { destruct (negb (Paddle.is_ai p)).
    - unfold Paddle._player_move. simpl.
      destruct (Paddle.K_w k && _); simpl; destruct (Paddle.K_s k && _);
        reflexivity.
    - unfold Paddle._ai_move. repeat case_match; reflexivity. }
  rewrite Hps in H.
  destruct (Paddle.chance d <? 0.2)%float.
  - destruct (DynamicColorManager_get cm _) as [c|]; simpl in H; [|discriminate].
    inversion H; subst; simpl. right. eauto.
  - simpl in H. inversion H; subst; simpl. left. reflexivity.
Qed.

Lemma paddle_run_listed (frames : list (Paddle.keys * Ball.t * Paddle.update_draw)) :
  ∀ p p',
    Forall (λ f, sized (Paddle.spawned f.2)) frames →
    listed_since 0 (Paddle.particles p) →
    paddle_run math cfg cm frames p = Some p' →
    listed_since 0 (Paddle.particles p').
Proof.
  induction frames as [|[[k ball] d] rest IH]; intros p p' Hsized Hinv Hrun;
    simpl in Hrun.
  - inversion Hrun; subst; exact Hinv.
  - inversion Hsized as [|? ? Hd Hrest]; subst. simpl in Hd.
    destruct (Paddle.update math cfg cm k ball d p) as [p1|] eqn:Hup;
      simpl in Hrun; [|discriminate].
    apply (IH p1 p' Hrest); [|exact Hrun].
    destruct (paddle_update_particles k ball d p p1 Hup)
      as [-> | (x & y & c & ->)].
    + apply listed_weaken, listed_age, Hinv.
    + apply listed_spawn; [apply listed_age, Hinv | exact Hd].
Qed.

(** X3.  A paddle's particle list stays bounded.  From a paddle without
    particles, as [__init__] leaves it, any sequence of [update] calls,
    for the player's or the AI's paddle, with particle sizes from
    [randint(2, 5)], leaves at most 51 particles: the survivors of the
    aging, at most 50, and the one that the call may append. *)
Theorem paddle_particles_bounded
    (frames : list (Paddle.keys * Ball.t * Paddle.update_draw))
    (p p' : Paddle.t) :
  Paddle.particles p = [] →
  Forall (λ f, sized (Paddle.spawned f.2)) frames →
  paddle_run math cfg cm frames p = Some p' →
  (length (Paddle.particles p') ≤ 51)%nat.
Proof.
  intros Hempty Hsized Hrun.
  apply (listed_length 0), (paddle_run_listed frames p p' Hsized);
    [rewrite Hempty; apply listed_nil | exact Hrun].
Qed.
End particle_bound_facts.

(** X2 on the ball of a new game: 60 updates that each spawn a particle of
    size 5 leave exactly 50 particles, so the bound is reached. *)
Lemma ball_particles_bounded_witness :
  ∃ b recorded,
    run poly_math defaults palette (replicate 60 (Update 1 spawning))
        (Game.ball new_game) [] = Some (b, recorded)
    ∧ length (Ball.particles b) = 50%nat
    ∧ (length (Ball.particles b) ≤ 50)%nat.
Proof.
  assert (Hrun : ∃ b recorded,
             run poly_math defaults palette (replicate 60 (Update 1 spawning))
                 (Game.ball new_game) [] = Some (b, recorded)
             ∧ length (Ball.particles b) = 50%nat)
    by (do 2 eexists; split; [vm_compute; reflexivity | vm_compute; reflexivity]).
  destruct Hrun as (b & recorded & Hrun & Hlen).
  exists b, recorded. split; [exact Hrun|]. split; [exact Hlen|].
  apply (ball_particles_bounded poly_math defaults palette
           (replicate 60 (Update 1 spawning)) (Game.ball new_game) b recorded);
    [reflexivity | | exact Hrun].
  apply Forall_forall. intros c Hc. apply elem_of_replicate in Hc as [-> _].
  vm_compute. split; discriminate.
Defined.

(** X3 on the AI paddle of a new game: 60 updates that each spawn a
    particle of size 5 leave exactly 51 particles. *)
Lemma paddle_particles_bounded_witness :
  ∃ p,
    paddle_run poly_math defaults palette
      (replicate 60 (no_keys, Game.ball new_game, paddle_spawning))
      (Game.ai_paddle new_game) = Some p
    ∧ length (Paddle.particles p) = 51%nat
    ∧ (length (Paddle.particles p) ≤ 51)%nat.
Proof.
  assert (Hrun : ∃ p,
             paddle_run poly_math defaults palette
               (replicate 60 (no_keys, Game.ball new_game, paddle_spawning))
               (Game.ai_paddle new_game) = Some p
             ∧ length (Paddle.particles p) = 51%nat)
    by (eexists; split; [vm_compute; reflexivity | vm_compute; reflexivity]).
  destruct Hrun as (p & Hrun & Hlen).
  exists p. split; [exact Hrun|]. split; [exact Hlen|].
  apply (paddle_particles_bounded poly_math defaults palette
           (replicate 60 (no_keys, Game.ball new_game, paddle_spawning))
           (Game.ai_paddle new_game) p);
    [reflexivity | | exact Hrun].
  apply Forall_forall. intros c Hc. apply elem_of_replicate in Hc as [-> _].
  vm_compute. split; discriminate.
Defined.


(** ** Paddles through the frames *)

Section paddle_frame_facts.
Context (math : Math) (cfg : Settings) (cm : DynamicColorManager).

(** What [Paddle.update] leaves of the paddle apart from its particles. *)
Lemma paddle_update_moved (k : Paddle.keys) (ball : Ball.t)
    (d : Paddle.update_draw) (p p' : Paddle.t) :
  Paddle.update math cfg cm k ball d p = Some p' →
  let moved := if negb (Paddle.is_ai p) then Paddle._player_move cfg k p
               else Paddle._ai_move cfg ball p in
  Paddle.rect p' = Paddle.rect moved
  ∧ Paddle.is_ai p' = Paddle.is_ai moved
  ∧ Paddle.charge p' = Paddle.charge moved
  ∧ Paddle.max_charge p' = Paddle.max_charge moved
  ∧ Paddle.element p' = Paddle.element moved
  ∧ Paddle.combo_meter p' = Paddle.combo_meter moved
  ∧ Paddle.combo_multiplier p' = Paddle.combo_multiplier moved.
Proof.
  intros H moved. unfold Paddle.update, Paddle._update_particles in H.
  fold moved in H.
  match type of H with (?spawn ≫= _) = _ => destruct spawn as [ps|] end;
    simpl in H; [|discriminate].
  inversion H; subst; simpl. done.
Qed.

Lemma player_move_rect (k : Paddle.keys) (p : Paddle.t) :
  let p' := Paddle._player_move cfg k p in
  Paddle.is_ai p' = Paddle.is_ai p
  ∧ Paddle.max_charge p' = Paddle.max_charge p
  ∧ Paddle.charge p' = charge_step (Paddle.K_LSHIFT k) (Paddle.max_charge p)
                                   (Paddle.charge p)
  ∧ Rect.h (Paddle.rect p') = Rect.h (Paddle.rect p)
  ∧ ∃ up down : bool,
      (up = true → 0 < Rect.top (Paddle.rect p))
      ∧ (down = true →
         Rect.bottom (Paddle.rect p) - (if up then 5 else 0) < HEIGHT cfg)
      ∧ Rect.y (Paddle.rect p')
        = Rect.y (Paddle.rect p) - (if up then 5 else 0) + (if down then 5 else 0).
Proof.
  unfold Paddle._player_move, Paddle.move, Rect.top, Rect.bottom, charge_step.
  destruct (Paddle.K_w k && (0 <? Rect.y (Paddle.rect p))) eqn:Hup; simpl;
    destruct (Paddle.K_s k && _) eqn:Hdown; simpl;
    (do 4 (split; [reflexivity|]));
    try (apply andb_true_iff in Hup as [_ Hup]; apply Z.ltb_lt in Hup);
    try (apply andb_true_iff in Hdown as [_ Hdown]; apply Z.ltb_lt in Hdown;
         simpl in Hdown).
  - exists true, true. split; [intros _; lia|]. split; [intros _; lia|]. lia.
  - exists true, false. split; [intros _; lia|]. split; [discriminate|]. lia.
  - exists false, true. split; [discriminate|]. split; [intros _; lia|]. lia.
  - exists false, false. split; [discriminate|]. split; [discriminate|]. lia.
Qed.

Lemma update_on_grid (k : Paddle.keys) (ball : Ball.t)
    (d : Paddle.update_draw) (p p' : Paddle.t) :
  Paddle.update math cfg cm k ball d p = Some p' →
  on_grid cfg p → on_grid cfg p'.
Proof.
  intros Hup (Hai & Hgrid & Hy & Htop & Hbottom).
  destruct (paddle_update_moved k ball d p p' Hup) as (Hrect & Hai' & _).
  rewrite Hai in Hrect, Hai'. cbv beta iota zeta delta [negb] in Hrect, Hai'.
  destruct (player_move_rect k p) as (Hai2 & _ & _ & Hh & up & down & Hu & Hd & Hy').
  unfold on_grid, Rect.top, Rect.bottom in *. rewrite Hrect, Hai', Hai2, Hh, Hy'.
  split; [exact Hai|]. split; [exact Hgrid|].
  destruct up, down; simpl in *;
    repeat match goal with H : true = true → _ |- _ => specialize (H eq_refl) end;
    Z.div_mod_to_equations; lia.
Qed.

(** X4.  A player's paddle that starts inside the screen on the grid of its
    5-pixel steps, with the height of the screen on that grid too, stays
    inside the screen whatever keys are held in whatever frames: its top
    is never above 0 and its bottom never below [HEIGHT].  The paddle of
    [Game.__init__] under the default settings is such a paddle. *)
Theorem player_paddle_never_leaves_screen
    (frames : list (Paddle.keys * Ball.t * Paddle.update_draw))
    (p p' : Paddle.t) :
  on_grid cfg p →
  paddle_run math cfg cm frames p = Some p' →
  0 ≤ Rect.top (Paddle.rect p')
  ∧ Rect.bottom (Paddle.rect p') ≤ HEIGHT cfg.
Proof.
  revert p. induction frames as [|[[k ball] d] rest IH]; intros p Hgrid Hrun;
    simpl in Hrun.
  - inversion Hrun; subst. destruct Hgrid as (_ & _ & _ & Htop & Hbottom). done.
  - destruct (Paddle.update math cfg cm k ball d p) as [p1|] eqn:Hup;
      simpl in Hrun; [|discriminate].
    exact (IH p1 (update_on_grid k ball d p p1 Hup Hgrid) Hrun).
Qed.

Lemma ai_move_near_screen (ball : Ball.t) (p : Paddle.t) :
  0 < AI_SPEED cfg →
  - AI_SPEED cfg < Rect.top (Paddle.rect p) →
  Rect.bottom (Paddle.rect p) < HEIGHT cfg + AI_SPEED cfg →
  let p' := Paddle._ai_move cfg ball p in
  Paddle.is_ai p' = Paddle.is_ai p
  ∧ - AI_SPEED cfg < Rect.top (Paddle.rect p')
  ∧ Rect.bottom (Paddle.rect p') < HEIGHT cfg + AI_SPEED cfg.
Proof.
  intros Hspeed Htop Hbottom. unfold Paddle._ai_move, Paddle.move.
  unfold Rect.top, Rect.bottom in *.
  destruct (_ && (Rect.y (Paddle.rect p) + Rect.h (Paddle.rect p) <? HEIGHT cfg))
    eqn:Hdown; simpl.
  - apply andb_true_iff in Hdown as [_ Hdown]. apply Z.ltb_lt in Hdown.
    split; [reflexivity|]. lia.
  - destruct (_ && (0 <? Rect.y (Paddle.rect p))) eqn:Hup; simpl.
    + apply andb_true_iff in Hup as [_ Hup]. apply Z.ltb_lt in Hup.
      split; [reflexivity|]. lia.
    + split; [reflexivity|]. lia.
Qed.

Lemma update_near_screen (k : Paddle.keys) (ball : Ball.t)
    (d : Paddle.update_draw) (p p' : Paddle.t) :
  0 < AI_SPEED cfg →
  Paddle.update math cfg cm k ball d p = Some p' →
  near_screen cfg p → near_screen cfg p'.
Proof.
  intros Hspeed Hup (Hai & Htop & Hbottom).
  destruct (paddle_update_moved k ball d p p' Hup) as (Hrect & Hai' & _).
  rewrite Hai in Hrect, Hai'. cbv beta iota zeta delta [negb] in Hrect, Hai'.
  destruct (ai_move_near_screen ball p Hspeed Htop Hbottom) as (Hai2 & Ht & Hb).
  unfold near_screen. rewrite Hrect, Hai', Hai2. done.
Qed.

(** X5.  With a positive [AI_SPEED], an AI paddle that starts inside the
    screen is never a whole step outside of it: after any number of
    updates, for any positions of the ball, its top is greater than
    [-AI_SPEED] and its bottom is less than [HEIGHT + AI_SPEED]. *)
Theorem ai_paddle_overshoot_bounded
    (frames : list (Paddle.keys * Ball.t * Paddle.update_draw))
    (p p' : Paddle.t) :
  0 < AI_SPEED cfg →
  Paddle.is_ai p = true →
  0 ≤ Rect.top (Paddle.rect p) →
  Rect.bottom (Paddle.rect p) ≤ HEIGHT cfg →
  paddle_run math cfg cm frames p = Some p' →
  - AI_SPEED cfg < Rect.top (Paddle.rect p')
  ∧ Rect.bottom (Paddle.rect p') < HEIGHT cfg + AI_SPEED cfg.
Proof.
  intros Hspeed Hai Htop Hbottom.
  assert (Hnear : near_screen cfg p) by (unfold near_screen; split; [done|lia]).
  clear Hai Htop Hbottom. revert p Hnear.
  induction frames as [|[[k ball] d] rest IH]; intros p Hnear Hrun;
    simpl in Hrun.
  - inversion Hrun; subst. destruct Hnear as (_ & Htop & Hbottom). done.
  - destruct (Paddle.update math cfg cm k ball d p) as [p1|] eqn:Hup;
      simpl in Hrun; [|discriminate].
    exact (IH p1 (update_near_screen k ball d p p1 Hspeed Hup Hnear) Hrun).
Qed.
End paddle_frame_facts.

(** X4 on the player's paddle of a new game: holding the up key for 60
    frames brings the paddle to the top of the screen and no further. *)
Lemma player_paddle_never_leaves_screen_witness :
  ∃ p,
    paddle_run poly_math defaults palette
      (replicate 60 (key_w, Game.ball new_game, no_spawn))
      (Game.player_paddle new_game) = Some p
    ∧ Rect.top (Paddle.rect p) = 0
    ∧ 0 ≤ Rect.top (Paddle.rect p)
    ∧ Rect.bottom (Paddle.rect p) ≤ HEIGHT defaults.
Proof.
  assert (Hrun : ∃ p,
             paddle_run poly_math defaults palette
               (replicate 60 (key_w, Game.ball new_game, no_spawn))
               (Game.player_paddle new_game) = Some p
             ∧ Rect.top (Paddle.rect p) = 0)
    by (eexists; split; [vm_compute; reflexivity | vm_compute; reflexivity]).
  destruct Hrun as (p & Hrun & Htop).
  exists p. split; [exact Hrun|]. split; [exact Htop|].
  apply (player_paddle_never_leaves_screen poly_math defaults palette
           (replicate 60 (key_w, Game.ball new_game, no_spawn))
           (Game.player_paddle new_game) p); [|exact Hrun].
  unfold on_grid. vm_compute. repeat split; discriminate.
Defined.

(** X5 on the AI paddle of a new game, chasing a ball at the top of the
    screen for 37 frames: the top ends at -4, above -7. *)
Lemma ai_paddle_overshoot_bounded_witness :
  ∃ p,
    paddle_run poly_math defaults palette
      (replicate 37 (no_keys, ball_at (Rect.mk 392 0 15 15), no_spawn))
      (Game.ai_paddle new_game) = Some p
    ∧ Rect.top (Paddle.rect p) = -4
    ∧ - AI_SPEED defaults < Rect.top (Paddle.rect p)
    ∧ Rect.bottom (Paddle.rect p) < HEIGHT defaults + AI_SPEED defaults.
Proof.
  assert (Hrun : ∃ p,
             paddle_run poly_math defaults palette
               (replicate 37 (no_keys, ball_at (Rect.mk 392 0 15 15), no_spawn))
               (Game.ai_paddle new_game) = Some p
             ∧ Rect.top (Paddle.rect p) = -4)
    by (eexists; split; [vm_compute; reflexivity | vm_compute; reflexivity]).
  destruct Hrun as (p & Hrun & Htop).
  exists p. split; [exact Hrun|]. split; [exact Htop|].
  apply (ai_paddle_overshoot_bounded poly_math defaults palette
           (replicate 37 (no_keys, ball_at (Rect.mk 392 0 15 15), no_spawn))
           (Game.ai_paddle new_game) p);
    [reflexivity | reflexivity | vm_compute; discriminate
     | vm_compute; discriminate | exact Hrun].
Defined.

(** ** The charge meter *)

(** The charge after a frame, for each of the 201 values it can have,
    checked by running the two assignments on every one of them. *)
Lemma charge_held_checked :
  forallb (λ n, PrimFloat.Leibniz.eqb (charge_step true 100 (half n))
                                      (half (Z.min (n + 2) 200)))
          (seqZ 0 201) = true.
Proof. vm_compute. reflexivity. Qed.

Lemma charge_released_checked :
  forallb (λ n, PrimFloat.Leibniz.eqb (charge_step false 100 (half n))
                                      (half (Z.max (n - 1) 0)))
          (seqZ 0 201) = true.
Proof. vm_compute. reflexivity. Qed.

Lemma charge_step_half (held : bool) (n : Z) :
  0 ≤ n ≤ 200 →
  charge_step held 100 (half n)
  = half (if held then Z.min (n + 2) 200 else Z.max (n - 1) 0).
Proof.
  intros Hn.
  assert (Hin : In n (seqZ 0 201))
    by (apply list_elem_of_In, elem_of_seqZ; lia).
  destruct held.
  - apply FloatAxioms.Leibniz.eqb_spec.
    exact (proj1 (forallb_forall _ _) charge_held_checked n Hin).
  - apply FloatAxioms.Leibniz.eqb_spec.
    exact (proj1 (forallb_forall _ _) charge_released_checked n Hin).
Qed.

Section charge_facts.
Context (math : Math) (cfg : Settings) (cm : DynamicColorManager).

(** X6.  The charge of the player's paddle moves on the half-integers
    between 0 and [max_charge = 100]: from the value [n / 2] a frame
    with the charge key held leaves [min(n / 2 + 1, 100)] and a frame
    without it leaves [max(n / 2 - 0.5, 0)], exactly, so the charge never
    leaves the interval from 0 to 100.  The AI paddle's charge is never
    written. *)
Theorem charge_steps_on_half_integers (k : Paddle.keys) (ball : Ball.t)
    (d : Paddle.update_draw) (p p' : Paddle.t) (n : Z) :
  Paddle.max_charge p = 100 →
  0 ≤ n ≤ 200 →
  Paddle.charge p = half n →
  Paddle.update math cfg cm k ball d p = Some p' →
  Paddle.max_charge p' = 100
  ∧ Paddle.charge p'
    = if Paddle.is_ai p then half n
      else half (if Paddle.K_LSHIFT k then Z.min (n + 2) 200
                 else Z.max (n - 1) 0).
Proof.
  intros Hmax Hn Hcharge Hup.
  destruct (paddle_update_moved math cfg cm k ball d p p' Hup)
    as (_ & _ & Hc & Hm & _).
  cbv zeta in Hc, Hm. rewrite Hc, Hm.
  destruct (Paddle.is_ai p); cbv beta iota delta [negb].
  - unfold Paddle._ai_move. repeat case_match; simpl; done.
  - destruct (player_move_rect cfg k p) as (_ & Hm' & Hc' & _).
    cbv zeta in Hm', Hc'. rewrite Hm', Hc', Hmax, Hcharge.
    split; [reflexivity|]. apply charge_step_half. exact Hn.
Qed.
End charge_facts.

(** X6 on the player's paddle of a new game: the charge key held for one
    frame takes the charge from 0 to 1. *)
Lemma charge_steps_on_half_integers_witness :
  ∃ p,
    Paddle.update poly_math defaults palette key_shift (Game.ball new_game)
                  no_spawn (Game.player_paddle new_game) = Some p
    ∧ Paddle.charge p = 1%float.
Proof.
  assert (Hrun : ∃ p,
             Paddle.update poly_math defaults palette key_shift
               (Game.ball new_game) no_spawn (Game.player_paddle new_game)
             = Some p)
    by (eexists; vm_compute; reflexivity).
  destruct Hrun as (p & Hrun). exists p. split; [exact Hrun|].
  destruct (charge_steps_on_half_integers poly_math defaults palette key_shift
              (Game.ball new_game) no_spawn (Game.player_paddle new_game) p 0
              eq_refl ltac:(lia) eq_refl Hrun) as [_ Hc].
  exact Hc.
Defined.


(** ** More on the scoring and collision passes *)

Section pass_facts.
Context (math : Math) (cfg : Settings) (cm : DynamicColorManager).

(** X7.  A point is scored once per exit.  If the ball's rectangle fits
    between the left and right edges when centered, then after the
    scoring pass the ball is inside those edges, whether the pass scored or
    not, and running the pass again changes nothing: the scores, the ball
    and the paddles are those of the first pass. *)
Theorem point_scored_once (d d' : Ball.reset_draw) (g : Game.t) :
  fits_at_center cfg (Ball.rect (Game.ball g)) →
  let g' := Game._update_game_state math cfg d g in
  out_of_bounds cfg g' = false
  ∧ Game._update_game_state math cfg d' g' = g'.
Proof.
  intros [Hleft Hright] g'.
  assert (Hin : out_of_bounds cfg g' = false).
  { subst g'. unfold Game._update_game_state.
    destruct (_ || _) eqn:Hout; [|exact Hout].
    unfold out_of_bounds, Rect.left, Rect.right. simpl.
    apply orb_false_iff. split; [apply Z.leb_gt | apply Z.leb_gt]; lia. }
  split; [exact Hin|].
  unfold out_of_bounds in Hin. unfold Game._update_game_state at 1.
  rewrite Hin. reflexivity.
Qed.

(** One iteration of the loop over the paddles, read backwards. *)
Lemma collide_inv (s : Game.side) (draws : nat → Particle.draw)
    (g g' : Game.t) :
  Game._collide cm s draws g = Some g' →
  if overlaps s g then
    ∃ c, DynamicColorManager_get cm (Ball.element (Game.ball g)) = Some c
      ∧ Game.ball g' = Game.set_dx (Ball.dx (Game.ball g) * -1.1)%float (Game.ball g)
      ∧ Game.paddle s g'
        = Game.set_combo_multiplier
            (Game.multiplier_of (Paddle.combo_meter (Game.paddle s g) + 1))
            (Game.set_combo_meter (Paddle.combo_meter (Game.paddle s g) + 1)
                                  (Game.paddle s g))
      ∧ Game.paddle (Game.other s) g' = Game.paddle (Game.other s) g
      ∧ Game.score g' = Game.score g
      ∧ Game.time_factor g' = Game.time_factor g
      ∧ Game.particles g' = Game.particles g ++ burst g c draws 20
  else g' = g.
Proof.
  unfold Game._collide, overlaps. intros H.
  destruct (Rect.colliderect _ _); [|inversion H; reflexivity].
  unfold Game._create_collision_particles in H.
  destruct s; simpl in H;
    (destruct (DynamicColorManager_get cm (Ball.element (Game.ball g))) as [c|];
     simpl in H; [|discriminate]);
    inversion H; subst; exists c; simpl; done.
Qed.

(** What the collision pass writes and what it leaves. *)
Lemma handle_collisions_inv (draws : Game.side → nat → Particle.draw)
    (g g' : Game.t) :
  Game._handle_collisions cfg cm draws g = Some g' →
  ∃ g1, Game._collide cm Game.Player (draws Game.Player) (after_walls cfg g) = Some g1
        ∧ Game._collide cm Game.AI (draws Game.AI) g1 = Some g'.
Proof.
  rewrite handle_collisions_unfold. intros H.
  destruct (Game._collide cm Game.Player _ _) as [g1|]; simpl in H;
    [|discriminate].
  exists g1. done.
Qed.

(** X8.  The collision pass moves nothing and scores nothing: when it ends,
    the ball's rectangle, tag, dimension, trail and particles, both
    paddles' rectangles, the score and the time factor are unchanged.
    Each paddle's combo meter has grown by 1 if the ball overlaps that
    paddle and is unchanged otherwise, and the game's particle list has
    only been extended at its end, by 20 particles per overlapping
    paddle. *)
Theorem collision_pass_frame (draws : Game.side → nat → Particle.draw)
    (g g' : Game.t) :
  Game._handle_collisions cfg cm draws g = Some g' →
  Ball.rect (Game.ball g') = Ball.rect (Game.ball g)
  ∧ Ball.element (Game.ball g') = Ball.element (Game.ball g)
  ∧ Ball.dimension (Game.ball g') = Ball.dimension (Game.ball g)
  ∧ Ball.trail (Game.ball g') = Ball.trail (Game.ball g)
  ∧ Ball.particles (Game.ball g') = Ball.particles (Game.ball g)
  ∧ Game.score g' = Game.score g
  ∧ Game.time_factor g' = Game.time_factor g
  ∧ (∀ s, Paddle.rect (Game.paddle s g') = Paddle.rect (Game.paddle s g)
          ∧ Paddle.combo_meter (Game.paddle s g')
            = Paddle.combo_meter (Game.paddle s g)
              + (if overlaps s g then 1 else 0))
  ∧ ∃ new, Game.particles g' = Game.particles g ++ new
           ∧ length new
             = ((if overlaps Game.Player g then 20 else 0)
                + (if overlaps Game.AI g then 20 else 0))%nat.
Proof.
  intros Hrun.
  destruct (handle_collisions_inv draws g g' Hrun) as (g1 & H1 & H2).
  destruct (after_walls_frame cfg g) as (Hrect & Hdx & Helem & Hpl & Hai & Hsc & Hps).
  assert (Hball0 : Ball.dimension (Game.ball (after_walls cfg g))
                   = Ball.dimension (Game.ball g)
                   ∧ Ball.trail (Game.ball (after_walls cfg g))
                     = Ball.trail (Game.ball g)
                   ∧ Ball.particles (Game.ball (after_walls cfg g))
                     = Ball.particles (Game.ball g)
                   ∧ Game.time_factor (after_walls cfg g) = Game.time_factor g)
    by (unfold after_walls; case_match; done).
  destruct Hball0 as (Hdim & Htrail & Hbps & Htf).
  assert (Ho1 : overlaps Game.Player (after_walls cfg g) = overlaps Game.Player g)
    by (unfold overlaps; simpl; rewrite Hrect, Hpl; reflexivity).
  apply collide_inv in H1. rewrite Ho1 in H1.
  assert (Ho2 : overlaps Game.AI g1 = overlaps Game.AI g).
  { unfold overlaps. simpl.
    destruct (overlaps Game.Player g).
    - destruct H1 as (c & _ & Hb & _ & Ho & _). simpl in Ho.
      rewrite Hb, Ho, Hai. simpl. rewrite Hrect. reflexivity.
    - subst g1. rewrite Hrect, Hai. reflexivity. }
  apply collide_inv in H2. rewrite Ho2 in H2.
  destruct (overlaps Game.Player g) eqn:Hp, (overlaps Game.AI g) eqn:Ha.
  - destruct H1 as (c1 & _ & Hb1 & Hp1 & Ho1' & Hs1 & Ht1 & Hn1).
    destruct H2 as (c2 & _ & Hb2 & Hp2 & Ho2' & Hs2 & Ht2 & Hn2).
    simpl in Hp1, Ho1', Hp2, Ho2'.
    rewrite Hb2, Hb1, Hs2, Hs1, Ht2, Ht1, Hn2, Hn1. simpl.
    do 5 (split; [congruence|]). split; [congruence|]. split; [congruence|].
    split.
    + intros [|]; simpl; rewrite ?Hp, ?Ha, ?Ho2', ?Hp1, ?Hp2, ?Ho1'; simpl;
        rewrite ?Hpl, ?Hai; done.
    + eexists. rewrite Hps, <- app_assoc. split; [reflexivity|].
      rewrite length_app. unfold burst. rewrite !length_fmap, !length_seq.
      reflexivity.
  - destruct H1 as (c1 & _ & Hb1 & Hp1 & Ho1' & Hs1 & Ht1 & Hn1). subst g'.
    simpl in Hp1, Ho1'.
    rewrite Hb1, Hs1, Ht1, Hn1. simpl.
    do 5 (split; [congruence|]). split; [congruence|]. split; [congruence|].
    split.
    + intros [|]; simpl; rewrite ?Hp, ?Ha, ?Hp1, ?Ho1'; simpl;
        rewrite ?Hpl, ?Hai; split; (reflexivity || lia).
    + eexists. rewrite Hps. split; [reflexivity|].
      unfold burst. rewrite length_fmap, length_seq. reflexivity.
  - subst g1.
    destruct H2 as (c2 & _ & Hb2 & Hp2 & Ho2' & Hs2 & Ht2 & Hn2).
    simpl in Hp2, Ho2'.
    rewrite Hb2, Hs2, Ht2, Hn2. simpl.
    do 5 (split; [congruence|]). split; [congruence|]. split; [congruence|].
    split.
    + intros [|]; simpl; rewrite ?Hp, ?Ha, ?Hp2, ?Ho2'; simpl;
        rewrite ?Hpl, ?Hai; split; (reflexivity || lia).
    + eexists. rewrite Hps. split; [reflexivity|].
      unfold burst. rewrite length_fmap, length_seq. reflexivity.
  - subst g1. subst g'.
    do 5 (split; [congruence|]). split; [congruence|]. split; [congruence|].
    split.
    + intros [|]; simpl; rewrite ?Hp, ?Ha, ?Hpl, ?Hai; split; (reflexivity || lia).
    + exists []. rewrite app_nil_r, Hps. done.
Qed.
End pass_facts.

Section combo_facts.
Context (math : Math) (cfg : Settings) (cm : DynamicColorManager).



(** X10.  When the ball overlaps both paddles at once, the pass runs the
    hit for each: [dx] is multiplied by -1.1 twice, so it keeps its sign
    and grows by the factor 1.21, both combo meters grow by 1, and 40
    particles are appended, 20 per paddle, all at the ball's center. *)
Theorem both_paddles_hit (draws : Game.side → nat → Particle.draw)
    (g : Game.t) (c : Z * Z * Z) :
  overlaps Game.Player g = true →
  overlaps Game.AI g = true →
  DynamicColorManager_get cm (Ball.element (Game.ball g)) = Some c →
  ∃ g', Game._handle_collisions cfg cm draws g = Some g'
    ∧ Ball.dx (Game.ball g') = (Ball.dx (Game.ball g) * -1.1 * -1.1)%float
    ∧ (∀ s, Paddle.combo_meter (Game.paddle s g')
            = Paddle.combo_meter (Game.paddle s g) + 1)
    ∧ Game.particles g'
      = Game.particles g ++ burst g c (draws Game.Player) 20
                         ++ burst g c (draws Game.AI) 20.
Proof.
  intros Hp Ha Hcolor.
  destruct (after_walls_frame cfg g) as (Hrect & Hdx & Helem & Hpl & Hai & _ & Hps).
  destruct (collide_hit cm Game.Player (draws Game.Player) (after_walls cfg g) c)
    as (g1 & H1 & Hb1 & Hm1 & _ & _ & Ho1 & _ & Hn1);
    [simpl; rewrite Hrect, Hpl; exact Hp | rewrite Helem; exact Hcolor |].
  simpl in Hm1, Ho1.
  destruct (collide_hit cm Game.AI (draws Game.AI) g1 c)
    as (g2 & H2 & Hb2 & Hm2 & _ & _ & Ho2 & _ & Hn2);
    [simpl; rewrite Hb1, Ho1, Hai; simpl; rewrite Hrect; exact Ha
     | rewrite Hb1; simpl; rewrite Helem; exact Hcolor |].
  simpl in Hm2, Ho2.
  exists g2. rewrite handle_collisions_unfold, H1. simpl.
  split; [exact H2|]. rewrite Hb2, Hb1. simpl. rewrite Hdx.
  split; [reflexivity|]. split.
  - intros [|]; simpl; [rewrite Ho2, Hm1, Hpl | rewrite Hm2, Ho1, Hai]; reflexivity.
  - rewrite Hn2, Hn1, Hps, <- app_assoc. unfold burst. rewrite Hb1. simpl.
    rewrite Hrect. reflexivity.
Qed.
End combo_facts.

(** X7 on a new game whose ball has left on the left: the first pass
    scores and recenters, the second pass changes nothing. *)
Lemma point_scored_once_witness :
  let g := with_ball (Rect.mk (-3) 200 15 15) (-5) 1 new_game in
  let g' := Game._update_game_state poly_math defaults a_reset_draw g in
  out_of_bounds defaults g = true
  ∧ out_of_bounds defaults g' = false
  ∧ Game._update_game_state poly_math defaults a_reset_draw g' = g'.
Proof.
  intros g g'. split; [reflexivity|].
  apply (point_scored_once poly_math defaults a_reset_draw a_reset_draw g).
  unfold fits_at_center. vm_compute. split; reflexivity.
Defined.

(** X8 on a new game whose ball lies on the player's paddle. *)
Lemma collision_pass_frame_witness :
  let g := with_ball (Rect.mk 60 280 15 15) (-5) 1 new_game in
  ∃ g', Game._handle_collisions defaults palette some_draws g = Some g'
    ∧ Ball.rect (Game.ball g') = Rect.mk 60 280 15 15
    ∧ Game.score g' = (0, 0)
    ∧ Paddle.combo_meter (Game.player_paddle g') = 1
    ∧ Paddle.combo_meter (Game.ai_paddle g') = 0.
Proof.
  intros g.
  assert (Hrun : ∃ g', Game._handle_collisions defaults palette some_draws g = Some g')
    by (eexists; vm_compute; reflexivity).
  destruct Hrun as [g' Hrun]. exists g'. split; [exact Hrun|].
  destruct (collision_pass_frame defaults palette some_draws g g' Hrun)
    as (Hrect & _ & _ & _ & _ & Hscore & _ & Hpaddles & _).
  split; [exact Hrect|]. split; [exact Hscore|].
  split; [exact (proj2 (Hpaddles Game.Player)) | exact (proj2 (Hpaddles Game.AI))].
Defined.


(** X10 on a screen 120 pixels wide, where the paddles overlap and the
    ball lies on both. *)
Lemma both_paddles_hit_witness :
  let g := with_ball (Rect.mk 58 280 15 15) (-5) 1 narrow_game in
  ∃ g', Game._handle_collisions narrow palette some_draws g = Some g'
    ∧ Ball.dx (Game.ball g') = (-5 * -1.1 * -1.1)%float
    ∧ Paddle.combo_meter (Game.player_paddle g') = 1
    ∧ Paddle.combo_meter (Game.ai_paddle g') = 1
    ∧ length (Game.particles g') = 40%nat.
Proof.
  intros g.
  destruct (both_paddles_hit narrow palette some_draws g (100, 140, 255))
    as (g' & Hrun & Hdx & Hmeters & Hps);
    [vm_compute; reflexivity .. |].
  exists g'. split; [exact Hrun|]. split; [exact Hdx|].
  split; [exact (Hmeters Game.Player)|]. split; [exact (Hmeters Game.AI)|].
  rewrite Hps. reflexivity.
Defined.


(** ** The colour cycler and its tags *)

Section tag_facts.
Context (elements : list string).

Lemma recolor_all_tags (sh : float) (els : list string) :
  ∀ (cs cs' : gmap string Color),
    recolor_all sh els cs = Some cs' →
    dom cs' = dom cs
    ∧ (∀ e : string, e ∈ els → is_Some (cs !! e))
    ∧ (∀ e : string, e ∉ els → cs' !! e = cs !! e).
Proof.
  induction els as [|e0 rest IH]; intros cs cs' Hrun; simpl in Hrun.
  - inversion Hrun; subst. split; [reflexivity|].
    split; [intros e He; apply elem_of_nil in He; done | reflexivity].
  - destruct (cs !! e0) as [c|] eqn:Hc; simpl in Hrun; [|discriminate].
    destruct (recolor sh c) as [c'|] eqn:Hc'; simpl in Hrun; [|discriminate].
    destruct (IH _ _ Hrun) as (Hdom & Hsome & Hout).
    assert (Hdom0 : dom (<[e0:=c']> cs) = dom cs).
    { apply dom_insert_lookup_L. eauto. }
    split; [rewrite Hdom; exact Hdom0|]. split.
    + intros e He. apply elem_of_cons in He as [->|He]; [eauto|].
      apply elem_of_dom. rewrite <- Hdom0. apply elem_of_dom, Hsome, He.
    + intros e He. apply not_elem_of_cons in He as [Hne He].
      rewrite (Hout e He), lookup_insert_ne by congruence. reflexivity.
Qed.

(** X11.  A call of [update] that ends keeps the tags of the dictionary:
    no entry is added or removed, every tag of the catalog has a colour
    before and after the call, so that [get] is defined for it, and an
    entry whose tag is not in the catalog keeps its colour. *)
Theorem update_keeps_the_tags (m m' : DynamicColorManager) :
  DynamicColorManager_update elements m = Some m' →
  dom (colors m') = dom (colors m)
  ∧ (∀ e : string, e ∈ elements →
       is_Some (DynamicColorManager_get m e)
       ∧ is_Some (DynamicColorManager_get m' e))
  ∧ (∀ e : string, e ∉ elements →
       DynamicColorManager_get m' e = DynamicColorManager_get m e).
Proof.
  intros Hup. apply update_shift in Hup as [_ Hrun].
  destruct (recolor_all_tags _ _ _ _ Hrun) as (Hdom & Hsome & Hout).
  split; [exact Hdom|]. unfold DynamicColorManager_get. split.
  - intros e He. specialize (Hsome e He).
    assert (Hsome' : is_Some (colors m' !! e))
      by (apply elem_of_dom; rewrite Hdom; apply elem_of_dom, Hsome).
    split; apply fmap_is_Some; assumption.
  - intros e He. rewrite (Hout e He). reflexivity.
Qed.

(** X12.  A catalog tag without an entry in the dictionary makes [update]
    fail (the [KeyError] of [self.colors[element]]), wherever the tag
    stands in the catalog. *)
Theorem update_fails_on_missing_tag (m : DynamicColorManager) (e : string) :
  e ∈ elements →
  colors m !! e = None →
  DynamicColorManager_update elements m = None.
Proof.
  intros He Hnone.
  destruct (DynamicColorManager_update elements m) as [m'|] eqn:Hup;
    [|reflexivity].
  apply update_shift in Hup as [_ Hrun].
  destruct (recolor_all_tags _ _ _ _ Hrun) as (_ & Hsome & _).
  destruct (Hsome e He) as [c Hc]. congruence.
Qed.
End tag_facts.

(** X11 on the default catalog: after a call every default tag still has
    a colour and the dictionary has the same six tags. *)
Lemma update_keeps_the_tags_witness :
  ∃ m', DynamicColorManager_update default_ELEMENTS palette = Some m'
    ∧ dom (colors m') = dom (colors palette)
    ∧ is_Some (DynamicColorManager_get m' "Void").
Proof.
  assert (Hrun : ∃ m', DynamicColorManager_update default_ELEMENTS palette = Some m')
    by (eexists; vm_compute; reflexivity).
  destruct Hrun as [m' Hrun]. exists m'. split; [exact Hrun|].
  destruct (update_keeps_the_tags default_ELEMENTS palette m' Hrun)
    as (Hdom & Hsome & _).
  split; [exact Hdom|].
  apply Hsome. refine (bool_decide_unpack _ _). vm_compute. exact I.
Defined.

(** X12 on a catalog with a tag that the dictionary lacks. *)
Lemma update_fails_on_missing_tag_witness :
  DynamicColorManager_update ["Fire"; "Plasma"]%string palette = None.
Proof.
  apply (update_fails_on_missing_tag ["Fire"; "Plasma"]%string palette "Plasma");
    [refine (bool_decide_unpack _ _); vm_compute; exact I | reflexivity].
Defined.

(** ** The ball after [__init__], [reset] and [update] *)

Section ball_state_facts.
Context (math : Math) (cfg : Settings) (cm : DynamicColorManager).

(** X13.  After [Ball.reset], and after [Ball.__init__], the center of the
    ball's rectangle is the center of the screen,
    [(WIDTH // 2, HEIGHT // 2)], whatever the size of the rectangle, the
    dimension id is 0 and the element tag is the one drawn; a new ball
    has an empty trail, no particle, and a square rectangle of side
    [BALL_SIZE]. *)
Theorem ball_recentered (d : Ball.reset_draw) (b : Ball.t) :
  (Rect.center (Ball.rect (Ball.reset math cfg d b))
   = (WIDTH cfg `div` 2, HEIGHT cfg `div` 2)
   ∧ Ball.dimension (Ball.reset math cfg d b) = 0
   ∧ Ball.element (Ball.reset math cfg d b) = Ball.drawn_element d)
  ∧ (Rect.center (Ball.rect (Ball.init math cfg d))
     = (WIDTH cfg `div` 2, HEIGHT cfg `div` 2)
     ∧ Ball.dimension (Ball.init math cfg d) = 0
     ∧ Ball.element (Ball.init math cfg d) = Ball.drawn_element d
     ∧ Ball.trail (Ball.init math cfg d) = []
     ∧ Ball.particles (Ball.init math cfg d) = []
     ∧ Rect.w (Ball.rect (Ball.init math cfg d)) = BALL_SIZE cfg
     ∧ Rect.h (Ball.rect (Ball.init math cfg d)) = BALL_SIZE cfg).
Proof.
  split.
  - split; [apply reset_center|]. split; reflexivity.
  - split; [|repeat split].
    unfold Ball.init. simpl. apply center_set_center.
Qed.

End ball_state_facts.


(** X1 on two particles, one of which expires at this call. *)
Lemma age_keeps_exactly_the_live_witness :
  let fading := Particle.mk 0 0 (255, 100, 100) 0.05 2 1 in
  let fresh := Particle.init 0 0 (255, 100, 100) a_particle_draw in
  Particle.age poly_math [fading; fresh] = [(Particle.update poly_math fresh).1]
  ∧ (Particle.update poly_math fresh).1 ∈ Particle.age poly_math [fading; fresh].
Proof.
  intros fading fresh. split; [vm_compute; reflexivity|].
  apply (proj2 (proj2 (proj2 (age_keeps_exactly_the_live poly_math [fading; fresh]))));
    [apply list_elem_of_further, list_elem_of_here | vm_compute; reflexivity].
Defined.


(** ** The power-up pass *)

Section powerup_facts.
Context (math : Math) (hypot : float → float → float) (cfg : Settings).

Lemma create_particles_with_color (cm : DynamicColorManager) (n : nat)
    (c : Z * Z * Z) (draws : nat → Particle.draw) (g : Game.t) :
  Game._create_collision_particles cm n (Some c) draws g
  = Some (Game.mk (Game.player_paddle g) (Game.ai_paddle g) (Game.ball g)
                  (Game.score g) (Game.time_factor g)
                  (Game.particles g ++ burst g c draws n)).
Proof. reflexivity. Qed.

Lemma apply_powerup_frame (p : PowerUp.t) (drawn : float) (w : World.t) :
  let w' := World._apply_powerup p drawn w in
  Game.ball (World.game w') = Game.ball (World.game w)
  ∧ Game.player_paddle (World.game w') = Game.player_paddle (World.game w)
  ∧ Game.ai_paddle (World.game w') = Game.ai_paddle (World.game w)
  ∧ Game.score (World.game w') = Game.score (World.game w)
  ∧ Game.particles (World.game w') = Game.particles (World.game w)
  ∧ World.color_manager w' = World.color_manager w
  ∧ World.rifts w' = World.rifts w
  ∧ World.visual_effects w' = World.visual_effects w
  ∧ (PowerUp.type p ≠ "Time Warp"%string →
     Game.time_factor (World.game w') = Game.time_factor (World.game w))
  ∧ (PowerUp.type p ≠ "Reality Bend"%string →
     World.reality_shift w' = World.reality_shift w).
Proof.
  intros w'. subst w'. unfold World._apply_powerup.
  destruct (bool_decide (PowerUp.type p = "Time Warp"%string)) eqn:Htw.
  - apply bool_decide_eq_true in Htw. simpl. repeat split; try done.
  - destruct (bool_decide (PowerUp.type p = "Reality Bend"%string)) eqn:Hrb.
    + apply bool_decide_eq_true in Hrb. simpl. repeat split; try done.
    + repeat split; done.
Qed.

Lemma powerup_loop_cons (p : PowerUp.t) (rest : list PowerUp.t) (i : nat)
    (draws : nat → World.touch_draw) (w : World.t) :
  World._powerup_loop (p :: rest) i draws w
  = if touches (Game.ball (World.game w)) p then
      let w1 := World._apply_powerup (PowerUp.update p)
                                     (World.effect (draws i)) w in
      let g1 := World.game w1 in
      World._powerup_loop rest (S i) draws
        (World.set_game
           (Game.mk (Game.player_paddle g1) (Game.ai_paddle g1) (Game.ball g1)
                    (Game.score g1) (Game.time_factor g1)
                    (Game.particles g1
                     ++ burst g1 (to_tuple (PowerUp.color p))
                              (World.sparks (draws i)) 30))
           w1)
    else
      '(w', kept) ← World._powerup_loop rest (S i) draws w;
      Some (w', PowerUp.update p :: kept).
Proof. reflexivity. Qed.

(** The loop over the power-ups, read backwards. *)
Lemma powerup_loop_inv (items : list PowerUp.t) (draws : nat → World.touch_draw) :
  ∀ (i : nat) (w w' : World.t) (kept : list PowerUp.t),
    World._powerup_loop items i draws w = Some (w', kept) →
    kept = filter (λ p, touches (Game.ball (World.game w)) p = false)
                  (PowerUp.update <$> items)
    ∧ Game.ball (World.game w') = Game.ball (World.game w)
    ∧ Game.player_paddle (World.game w') = Game.player_paddle (World.game w)
    ∧ Game.ai_paddle (World.game w') = Game.ai_paddle (World.game w)
    ∧ Game.score (World.game w') = Game.score (World.game w)
    ∧ World.color_manager w' = World.color_manager w
    ∧ World.rifts w' = World.rifts w
    ∧ World.visual_effects w' = World.visual_effects w
    ∧ (∃ new, Game.particles (World.game w')
              = Game.particles (World.game w) ++ new
              ∧ length new
                = (30 * length (filter (λ p, touches (Game.ball (World.game w)) p = true)
                                       items))%nat)
    ∧ ((∀ p, p ∈ items → touches (Game.ball (World.game w)) p = true →
             PowerUp.type p ≠ "Time Warp"%string) →
       Game.time_factor (World.game w') = Game.time_factor (World.game w))
    ∧ ((∀ p, p ∈ items → touches (Game.ball (World.game w)) p = true →
             PowerUp.type p ≠ "Reality Bend"%string) →
       World.reality_shift w' = World.reality_shift w).
Proof.
  induction items as [|p rest IH]; intros i w w' kept Hrun.
  - simpl in Hrun. inversion Hrun; subst. do 8 (split; [reflexivity|]).
    split; [exists []; rewrite app_nil_r; done|]. done.
  - rewrite powerup_loop_cons in Hrun. rewrite fmap_cons.
    destruct (touches (Game.ball (World.game w)) p) eqn:Htouch.
    + cbv zeta in Hrun.
      destruct (apply_powerup_frame (PowerUp.update p)
                  (World.effect (draws i)) w)
        as (Hb & Hpl & Hai & Hsc & Hps & Hcm & Hrf & Hve & Htf & Hrs).
      apply IH in Hrun. cbn [World.game World.set_game World.color_manager
        World.rifts World.visual_effects World.reality_shift Game.ball
        Game.player_paddle Game.ai_paddle Game.score Game.time_factor
        Game.particles] in Hrun.
      destruct Hrun as (Hkept & Hb' & Hpl' & Hai' & Hsc' & Hcm' & Hrf' & Hve'
                        & (new & Hnew & Hlen) & Htf' & Hrs').
      rewrite Hb in *.
      split.
      { rewrite filter_cons_False; [exact Hkept|].
        unfold touches in *. simpl. rewrite Htouch. discriminate. }
      do 7 (split; [congruence|]).
      split.
      { eexists. rewrite Hnew, Hps, <- app_assoc. split; [reflexivity|].
        rewrite length_app, Hlen, filter_cons_True by exact Htouch.
        unfold burst. rewrite length_fmap, length_seq. simpl. lia. }
      split.
      * intros Hno. rewrite Htf'.
        -- simpl. apply Htf. exact (Hno p (list_elem_of_here _ _) Htouch).
        -- intros q Hq. apply Hno. apply list_elem_of_further, Hq.
      * intros Hno. rewrite Hrs'.
        -- apply Hrs. exact (Hno p (list_elem_of_here _ _) Htouch).
        -- intros q Hq. apply Hno. apply list_elem_of_further, Hq.
    + destruct (World._powerup_loop rest (S i) draws w) as [[w1 kept1]|] eqn:Hrest;
        simpl in Hrun; [|discriminate].
      inversion Hrun; subst. apply IH in Hrest.
      destruct Hrest as (Hkept & Hb' & Hpl' & Hai' & Hsc' & Hcm' & Hrf' & Hve'
                         & (new & Hnew & Hlen) & Htf' & Hrs').
      split.
      { rewrite filter_cons_True; [rewrite Hkept; reflexivity|].
        unfold touches in *. simpl. exact Htouch. }
      do 7 (split; [assumption|]).
      split.
      { exists new. split; [exact Hnew|].
        rewrite filter_cons_False; [exact Hlen|]. rewrite Htouch. discriminate. }
      split; intros Hno; [apply Htf' | apply Hrs'];
        intros q Hq; apply Hno, list_elem_of_further, Hq.
Qed.
End powerup_facts.

Section powerup_pass_facts.

(** X15.  The power-up pass removes exactly the power-ups that the ball
    touches.  After it, the list holds the visited power-ups that do not
    overlap the ball, in their order and with their pulse advanced by 0.1;
    none of them overlaps the ball; 30 particles per removed power-up have
    been appended to the game's particles; the ball, the paddles, the
    score and the rifts are unchanged. *)
Theorem powerup_pass_removes_the_touched (i : World.frame_input)
    (w w' : World.t) :
  World._handle_powerups i w = Some w' →
  let ball := Game.ball (World.game w) in
  World.powerups w'
  = filter (λ p, touches ball p = false)
           (PowerUp.update <$> visited_powerups i w)
  ∧ Forall (λ p, touches (Game.ball (World.game w')) p = false)
           (World.powerups w')
  ∧ (∃ new, Game.particles (World.game w')
            = Game.particles (World.game w) ++ new
            ∧ length new
              = (30 * length (filter (λ p, touches ball p = true)
                                     (visited_powerups i w)))%nat)
  ∧ Game.ball (World.game w') = ball
  ∧ Game.player_paddle (World.game w') = Game.player_paddle (World.game w)
  ∧ Game.ai_paddle (World.game w') = Game.ai_paddle (World.game w)
  ∧ Game.score (World.game w') = Game.score (World.game w)
  ∧ World.rifts w' = World.rifts w.
Proof.
  intros Hrun ball. unfold World._handle_powerups in Hrun.
  fold (visited_powerups i w) in Hrun.
  destruct (World._powerup_loop _ _ _ _) as [[w1 kept]|] eqn:Hloop;
    simpl in Hrun; [|discriminate].
  inversion Hrun; subst; simpl.
  apply powerup_loop_inv in Hloop.
  destruct Hloop as (Hkept & Hb & Hpl & Hai & Hsc & _ & Hrf & _ & Hnew & _).
  split; [exact Hkept|]. split.
  - rewrite Hb, Hkept. apply Forall_forall. intros p Hp.
    apply list_elem_of_filter in Hp as [Hp _]. exact Hp.
  - done.
Qed.

(** X16.  Only the two wired effects exist.  The power-up pass changes the
    time factor only if the ball touches a power-up of type "Time Warp",
    and the reality shift only if it touches one of type "Reality Bend";
    touching power-ups of the six other types changes neither. *)
Theorem powerup_pass_effects (i : World.frame_input) (w w' : World.t) :
  World._handle_powerups i w = Some w' →
  let ball := Game.ball (World.game w) in
  ((∀ p, p ∈ visited_powerups i w → touches ball p = true →
         PowerUp.type p ≠ "Time Warp"%string) →
   Game.time_factor (World.game w') = Game.time_factor (World.game w))
  ∧ ((∀ p, p ∈ visited_powerups i w → touches ball p = true →
           PowerUp.type p ≠ "Reality Bend"%string) →
     World.reality_shift w' = World.reality_shift w).
Proof.
  intros Hrun ball. unfold World._handle_powerups in Hrun.
  fold (visited_powerups i w) in Hrun.
  destruct (World._powerup_loop _ _ _ _) as [[w1 kept]|] eqn:Hloop;
    simpl in Hrun; [|discriminate].
  inversion Hrun; subst; simpl.
  apply powerup_loop_inv in Hloop.
  destruct Hloop as (_ & _ & _ & _ & _ & _ & _ & _ & _ & Htf & Hrs).
  split; assumption.
Qed.
End powerup_pass_facts.

(** X15 on a world whose only power-up, of type "Multi-ball", lies on the
    ball: it is removed and 30 particles appear. *)
Lemma powerup_pass_removes_the_touched_witness :
  ∃ w', World._handle_powerups quiet_frame a_world = Some w'
    ∧ World.powerups w' = []
    ∧ length (Game.particles (World.game w')) = 30%nat.
Proof.
  assert (Hrun : ∃ w', World._handle_powerups quiet_frame a_world = Some w')
    by (eexists; vm_compute; reflexivity).
  destruct Hrun as [w' Hrun]. exists w'. split; [exact Hrun|].
  destruct (powerup_pass_removes_the_touched quiet_frame a_world w' Hrun)
    as (Hkept & _ & (new & Hnew & Hlen) & _).
  split; [rewrite Hkept; vm_compute; reflexivity|].
  rewrite Hnew, length_app, Hlen. vm_compute. reflexivity.
Defined.

(** X16 on the same world: the time factor and the reality shift stay. *)
Lemma powerup_pass_effects_witness :
  ∃ w', World._handle_powerups quiet_frame a_world = Some w'
    ∧ Game.time_factor (World.game w') = 1%float
    ∧ World.reality_shift w' = 0%float.
Proof.
  assert (Hrun : ∃ w', World._handle_powerups quiet_frame a_world = Some w')
    by (eexists; vm_compute; reflexivity).
  destruct Hrun as [w' Hrun]. exists w'. split; [exact Hrun|].
  destruct (powerup_pass_effects quiet_frame a_world w' Hrun) as [Htf Hrs].
  assert (Hinert : ∀ p, p ∈ visited_powerups quiet_frame a_world →
                        PowerUp.type p = "Multi-ball"%string).
  { intros p Hp.
    change (visited_powerups quiet_frame a_world) with [a_powerup] in Hp.
    apply list_elem_of_singleton in Hp as ->. reflexivity. }
  split; [rewrite Htf | rewrite Hrs]; try reflexivity;
    intros p Hp _; rewrite (Hinert p Hp); discriminate.
Defined.

(** ** The rift pass *)

Section rift_facts.
Context (math : Math) (hypot : float → float → float).

Lemma rift_loop_cons (r : InterdimensionalRift.t)
    (rest : list InterdimensionalRift.t) (i : nat)
    (draws : nat → World.rift_draw) (g : Game.t) (cm : DynamicColorManager) :
  World._rift_loop math hypot (r :: rest) i draws g cm
  = let g1 :=
      if reaches hypot (Ball.rect (Game.ball g)) r then
        Game.mk (Game.player_paddle g) (Game.ai_paddle g)
                (World.set_dimension (InterdimensionalRift.destination r)
                                     (Game.ball g))
                (Game.score g) (Game.time_factor g)
                (Game.particles g
                 ++ burst g (to_tuple (InterdimensionalRift.color r))
                          (World.flash (draws i)) 50)
      else g in
    '(g', rs) ← World._rift_loop math hypot rest (S i) draws g1 cm;
    Some (g', InterdimensionalRift.update math (World.ambient (draws i)) r :: rs).
Proof.
  simpl. change (World.in_rift hypot (Game.ball g)
                   (InterdimensionalRift.update math (World.ambient (draws i)) r))
    with (reaches hypot (Ball.rect (Game.ball g)) r).
  destruct (reaches hypot (Ball.rect (Game.ball g)) r); reflexivity.
Qed.

(** The loop over the rifts, read backwards. *)
Lemma rift_loop_inv (items : list InterdimensionalRift.t)
    (draws : nat → World.rift_draw) (cm : DynamicColorManager) :
  ∀ (i : nat) (g g' : Game.t) (rs : list InterdimensionalRift.t),
    World._rift_loop math hypot items i draws g cm = Some (g', rs) →
    let inside := filter (λ r, reaches hypot (Ball.rect (Game.ball g)) r = true)
                         items in
    rift_shape <$> rs = rift_shape <$> items
    ∧ Ball.rect (Game.ball g') = Ball.rect (Game.ball g)
    ∧ Ball.dx (Game.ball g') = Ball.dx (Game.ball g)
    ∧ Ball.dy (Game.ball g') = Ball.dy (Game.ball g)
    ∧ Ball.trail (Game.ball g') = Ball.trail (Game.ball g)
    ∧ Game.player_paddle g' = Game.player_paddle g
    ∧ Game.ai_paddle g' = Game.ai_paddle g
    ∧ Game.score g' = Game.score g
    ∧ Game.time_factor g' = Game.time_factor g
    ∧ Ball.dimension (Game.ball g')
      = default (Ball.dimension (Game.ball g))
                (last (InterdimensionalRift.destination <$> inside))
    ∧ ∃ new, Game.particles g' = Game.particles g ++ new
             ∧ length new = (50 * length inside)%nat.
Proof.
  induction items as [|r rest IH]; intros i g g' rs Hrun inside; subst inside.
  - simpl in Hrun. inversion Hrun; subst. do 10 (split; [reflexivity|]).
    exists []. rewrite app_nil_r. done.
  - rewrite rift_loop_cons in Hrun. cbv zeta in Hrun.
    destruct (World._rift_loop math hypot rest (S i) draws _ cm)
      as [[g2 rs2]|] eqn:Hrest; simpl in Hrun; [|discriminate].
    inversion Hrun; subst. apply IH in Hrest. cbv zeta in Hrest.
    destruct (reaches hypot (Ball.rect (Game.ball g)) r) eqn:Hin.
    + cbn [Game.ball Game.player_paddle Game.ai_paddle Game.score
           Game.time_factor Game.particles World.set_dimension Ball.rect
           Ball.dx Ball.dy Ball.trail Ball.dimension] in Hrest.
      destruct Hrest as (Hshape & Hrect & Hdx & Hdy & Htrail & Hpl & Hai & Hsc
                         & Htf & Hdim & (new & Hnew & Hlen)).
      rewrite filter_cons_True by exact Hin.
      split; [rewrite !fmap_cons, Hshape; reflexivity|].
      do 8 (split; [assumption|]). split.
      * rewrite Hdim, fmap_cons, last_cons.
        destruct (last _); reflexivity.
      * eexists. rewrite Hnew, <- app_assoc. split; [reflexivity|].
        rewrite length_app, Hlen. unfold burst.
        rewrite length_fmap, length_seq. simpl. lia.
    + destruct Hrest as (Hshape & Hrect & Hdx & Hdy & Htrail & Hpl & Hai & Hsc
                         & Htf & Hdim & Hnew).
      rewrite filter_cons_False by (rewrite Hin; discriminate).
      split; [rewrite !fmap_cons, Hshape; reflexivity|].
      do 8 (split; [assumption|]). split; assumption.
Qed.

(** X17.  Rifts persist and the ball is not moved.  After the rift pass the
    list holds the visited rifts, in their order, each with its position,
    radius, destination and colour, so that no rift is ever removed or
    moved.  The ball's rectangle, velocity and trail, the paddles, the
    score and the time factor are unchanged.  The ball's dimension id is
    the destination of the last visited rift whose radius reaches the
    ball's center, and is unchanged when there is none; 50 particles per
    such rift have been appended to the game's particles. *)
Theorem rift_pass_marks_the_ball (i : World.frame_input) (w w' : World.t) :
  World._handle_rifts math hypot i w = Some w' →
  let ball := Game.ball (World.game w) in
  let inside := filter (λ r, reaches hypot (Ball.rect ball) r = true)
                       (visited_rifts i w) in
  rift_shape <$> World.rifts w' = rift_shape <$> visited_rifts i w
  ∧ Ball.rect (Game.ball (World.game w')) = Ball.rect ball
  ∧ Ball.dx (Game.ball (World.game w')) = Ball.dx ball
  ∧ Ball.dy (Game.ball (World.game w')) = Ball.dy ball
  ∧ Ball.trail (Game.ball (World.game w')) = Ball.trail ball
  ∧ Game.player_paddle (World.game w') = Game.player_paddle (World.game w)
  ∧ Game.ai_paddle (World.game w') = Game.ai_paddle (World.game w)
  ∧ Game.score (World.game w') = Game.score (World.game w)
  ∧ Game.time_factor (World.game w') = Game.time_factor (World.game w)
  ∧ Ball.dimension (Game.ball (World.game w'))
    = default (Ball.dimension ball)
              (last (InterdimensionalRift.destination <$> inside))
  ∧ (∃ new, Game.particles (World.game w')
            = Game.particles (World.game w) ++ new
            ∧ length new = (50 * length inside)%nat)
  ∧ World.powerups w' = World.powerups w
  ∧ World.reality_shift w' = World.reality_shift w.
Proof.
  intros Hrun ball inside. unfold World._handle_rifts in Hrun.
  fold (visited_rifts i w) in Hrun.
  destruct (World._rift_loop _ _ _ _ _ _ _) as [[g1 rs]|] eqn:Hloop;
    simpl in Hrun; [|discriminate].
  inversion Hrun; subst; simpl.
  apply rift_loop_inv in Hloop. cbv zeta in Hloop.
  destruct Hloop as (Hshape & Hrect & Hdx & Hdy & Htrail & Hpl & Hai & Hsc
                     & Htf & Hdim & Hnew).
  do 10 (split; [assumption|]). split; [exact Hnew|]. done.
Qed.
End rift_facts.

(** X17 on a world with one rift whose radius reaches the ball: the rift
    stays where it is and the ball's dimension id becomes its
    destination, 2. *)
Lemma rift_pass_marks_the_ball_witness :
  ∃ w', World._handle_rifts poly_math sqrt_hypot quiet_frame a_world = Some w'
    ∧ rift_shape <$> World.rifts w' = [rift_shape a_rift]
    ∧ Ball.dimension (Game.ball (World.game w')) = 2
    ∧ Ball.rect (Game.ball (World.game w')) = Ball.rect (Game.ball new_game).
Proof.
  assert (Hrun : ∃ w', World._handle_rifts poly_math sqrt_hypot quiet_frame
                         a_world = Some w')
    by (eexists; vm_compute; reflexivity).
  destruct Hrun as [w' Hrun]. exists w'. split; [exact Hrun|].
  destruct (rift_pass_marks_the_ball poly_math sqrt_hypot quiet_frame a_world
              w' Hrun) as (Hshape & Hrect & _ & _ & _ & _ & _ & _ & _ & Hdim & _).
  split; [rewrite Hshape; reflexivity|].
  split; [rewrite Hdim; vm_compute; reflexivity | exact Hrect].
Defined.


(** ** The kaleidoscope *)

Section kaleidoscope_facts.
Context (math : Math).

Lemma update_tidy (ticks : Z) (d : VisualEffects.update_draw)
    (v : VisualEffects.t) :
  VisualEffects.drawn_intensity d ∈ [0; 45; 90] →
  tidy v → tidy (VisualEffects.update math ticks d v).
Proof.
  intros Hd [Hoff Hin]. unfold VisualEffects.update, tidy.
  destruct (VisualEffects.chance d <? 0.0005)%float; simpl; [|done].
  destruct (VisualEffects.kaleidoscope v); simpl.
  - split; [reflexivity | apply list_elem_of_here].
  - split; [discriminate | exact Hd].
Qed.

Lemma tidy_rotations (v : VisualEffects.t) :
  tidy v →
  VisualEffects.rotations v = []
  ∨ VisualEffects.rotations v = [0; 45; 90; 135; 180; 225; 270; 315]
  ∨ VisualEffects.rotations v = [0; 90; 180; 270].
Proof.
  intros [_ Hin]. unfold VisualEffects.rotations.
  destruct (VisualEffects.kaleidoscope v); [|left; reflexivity].
  apply elem_of_cons in Hin as [->|Hin]; [left; reflexivity|].
  apply elem_of_cons in Hin as [->|Hin]; [right; left; reflexivity|].
  apply list_elem_of_singleton in Hin as ->. right; right; reflexivity.
Qed.

(** X18.  From the initial visual effects, after any number of updates
    whose drawn intensity is one of the choices 0, 45 and 90, the
    kaleidoscope intensity is one of these three values and is 0 whenever
    the kaleidoscope is off.  So [apply] blends either no rotated copy of
    the frame (kaleidoscope off, or on with intensity 0), or the 8 copies
    at the multiples of 45 degrees, or the 4 copies at the multiples of
    90 degrees, and the step of its [range] is never 0. *)
Theorem kaleidoscope_stays_tidy (frames : list (Z * VisualEffects.update_draw)) :
  Forall (λ f, VisualEffects.drawn_intensity f.2 ∈ [0; 45; 90]) frames →
  let v := effects_run math frames VisualEffects.init in
  tidy v
  ∧ (VisualEffects.rotations v = []
     ∨ VisualEffects.rotations v = [0; 45; 90; 135; 180; 225; 270; 315]
     ∨ VisualEffects.rotations v = [0; 90; 180; 270]).
Proof.
  intros Hdraws v.
  assert (Htidy : tidy v).
  { subst v. assert (Hinit : tidy VisualEffects.init)
      by (split; [reflexivity | apply list_elem_of_here]).
    revert Hinit. generalize VisualEffects.init.
    induction frames as [|[ticks d] rest IH]; intros v0 Hv0; [exact Hv0|].
    inversion Hdraws as [|? ? Hd Hrest]; subst. simpl.
    apply (IH Hrest), update_tidy; assumption. }
  split; [exact Htidy | exact (tidy_rotations v Htidy)].
Qed.
End kaleidoscope_facts.

(** X18 on two frames that both toggle: the kaleidoscope goes on with the
    drawn intensity 90, then off with intensity 0. *)
Lemma kaleidoscope_stays_tidy_witness :
  VisualEffects.rotations
    (effects_run poly_math [(16, VisualEffects.mkUpdateDraw 0.0001 90)]
                 VisualEffects.init) = [0; 90; 180; 270]
  ∧ tidy (effects_run poly_math
            [(16, VisualEffects.mkUpdateDraw 0.0001 90);
             (33, VisualEffects.mkUpdateDraw 0.0001 45)]
            VisualEffects.init)
  ∧ VisualEffects.kaleidoscope_intensity
      (effects_run poly_math
         [(16, VisualEffects.mkUpdateDraw 0.0001 90);
          (33, VisualEffects.mkUpdateDraw 0.0001 45)]
         VisualEffects.init) = 0.
Proof.
  split; [vm_compute; reflexivity|]. split; [|vm_compute; reflexivity].
  apply (kaleidoscope_stays_tidy poly_math
           [(16, VisualEffects.mkUpdateDraw 0.0001 90);
            (33, VisualEffects.mkUpdateDraw 0.0001 45)]).
  repeat constructor.
Defined.

(** ** The whole frame *)

Section frame_facts.
Context (math : Math) (hypot : float → float → float) (cfg : Settings).

(** [Game.update], read backwards: the steps that a frame that ends has
    been through. *)
Lemma world_update_inv (i : World.frame_input) (w w' : World.t) :
  World.update math hypot cfg i w = Some w' →
  ∃ cm player ai ball g2 w4 w5,
    DynamicColorManager_update (ELEMENTS cfg) (World.color_manager w) = Some cm
    ∧ Paddle.update math cfg cm (World.keys i) (Game.ball (World.game w))
        (World.player_draw i) (Game.player_paddle (World.game w)) = Some player
    ∧ Paddle.update math cfg cm (World.keys i) (Game.ball (World.game w))
        (World.ai_draw i) (Game.ai_paddle (World.game w)) = Some ai
    ∧ Ball.update math cm (Game.time_factor (World.game w)) (World.ball_draw i)
        (Game.ball (World.game w)) = Some ball
    ∧ Game._handle_collisions cfg cm (World.collision_draws i)
        (Game.mk player ai ball (Game.score (World.game w))
                 (Game.time_factor (World.game w))
                 (Game.particles (World.game w))) = Some g2
    ∧ World._handle_powerups i
        (World.mk (Game._update_game_state math cfg (World.reset_draw i) g2)
                  cm (World.powerups w) (World.rifts w) (World.reality_shift w)
                  (VisualEffects.update math (World.ticks i)
                     (World.effects_draw i) (World.visual_effects w)))
      = Some w4
    ∧ World._handle_rifts math hypot i w4 = Some w5
    ∧ w' = World.set_game
             (Game.mk (Game.player_paddle (World.game w5))
                      (Game.ai_paddle (World.game w5))
                      (Game.ball (World.game w5))
                      (Game.score (World.game w5))
                      (Game.time_factor (World.game w5))
                      (Particle.age math (Game.particles (World.game w5))))
             w5.
Proof.
  intros H. unfold World.update in H.
  destruct (DynamicColorManager_update _ _) as [cm|] eqn:Hcm; simpl in H;
    [|discriminate].
  destruct (Paddle.update math cfg cm _ _ (World.player_draw i) _)
    as [player|] eqn:Hpl; simpl in H; [|discriminate].
  destruct (Paddle.update math cfg cm _ _ (World.ai_draw i) _)
    as [ai|] eqn:Hai; simpl in H; [|discriminate].
  destruct (Ball.update math cm _ _ _) as [ball|] eqn:Hball; simpl in H;
    [|discriminate].
  destruct (Game._handle_collisions cfg cm _ _) as [g2|] eqn:Hcol; simpl in H;
    [|discriminate].
  destruct (World._handle_powerups i _) as [w4|] eqn:Hpow; simpl in H;
    [|discriminate].
  destruct (World._handle_rifts math hypot i w4) as [w5|] eqn:Hrift;
    simpl in H; [|discriminate].
  inversion H; subst. exists cm, player, ai, ball, g2, w4, w5. done.
Qed.

Lemma handle_collisions_keeps (cm : DynamicColorManager)
    (draws : Game.side → nat → Particle.draw) (g g' : Game.t) :
  Game._handle_collisions cfg cm draws g = Some g' →
  Game.score g' = Game.score g
  ∧ Ball.rect (Game.ball g') = Ball.rect (Game.ball g)
  ∧ Ball.trail (Game.ball g') = Ball.trail (Game.ball g)
  ∧ ∀ s, Paddle.rect (Game.paddle s g') = Paddle.rect (Game.paddle s g).
Proof.
  intros Hrun.
  destruct (handle_collisions_inv cfg cm draws g g' Hrun) as (g1 & H1 & H2).
  assert (Hstep : ∀ s d ga gb, Game._collide cm s d ga = Some gb →
            Game.score gb = Game.score ga
            ∧ Ball.rect (Game.ball gb) = Ball.rect (Game.ball ga)
            ∧ Ball.trail (Game.ball gb) = Ball.trail (Game.ball ga)
            ∧ ∀ s', Paddle.rect (Game.paddle s' gb) = Paddle.rect (Game.paddle s' ga)).
  { intros s d ga gb Hc. apply collide_inv in Hc.
    destruct (overlaps s ga); [|subst gb; done].
    destruct Hc as (c & _ & Hb & Hhit & Hother & Hsc & _).
    rewrite Hb, Hsc. do 3 (split; [reflexivity|]).
    intros s'. destruct s, s'; simpl in *; rewrite ?Hhit, ?Hother; reflexivity. }
  destruct (Hstep _ _ _ _ H1) as (Hs1 & Hr1 & Ht1 & Hp1).
  destruct (Hstep _ _ _ _ H2) as (Hs2 & Hr2 & Ht2 & Hp2).
  destruct (after_walls_frame cfg g) as (Hrect & _ & _ & Hpl & Hai & Hsc & _).
  assert (Htrail : Ball.trail (Game.ball (after_walls cfg g))
                   = Ball.trail (Game.ball g))
    by (unfold after_walls; case_match; reflexivity).
  split; [congruence|]. split; [congruence|]. split; [congruence|].
  intros s. rewrite Hp2, Hp1. destruct s; simpl; congruence.
Qed.

Lemma scoring_keeps (d : Ball.reset_draw) (g : Game.t) :
  let g' := Game._update_game_state math cfg d g in
  (Game.score g).1 ≤ (Game.score g').1
  ∧ (Game.score g).2 ≤ (Game.score g').2
  ∧ (Game.score g').1 + (Game.score g').2 ≤ (Game.score g).1 + (Game.score g).2 + 1
  ∧ Ball.trail (Game.ball g') = Ball.trail (Game.ball g)
  ∧ Rect.w (Ball.rect (Game.ball g')) = Rect.w (Ball.rect (Game.ball g))
  ∧ Rect.h (Ball.rect (Game.ball g')) = Rect.h (Ball.rect (Game.ball g))
  ∧ ∀ s, Paddle.rect (Game.paddle s g') = Paddle.rect (Game.paddle s g).
Proof.
  intros g'. subst g'. unfold Game._update_game_state.
  destruct (_ || _); [|repeat split; lia].
  destruct (Rect.left (Ball.rect (Game.ball g)) <=? 0); simpl;
    (do 3 (split; [lia|])); (do 3 (split; [reflexivity|]));
    intros [|]; reflexivity.
Qed.

Lemma paddle_update_column (cm : DynamicColorManager) (k : Paddle.keys)
    (ball : Ball.t) (d : Paddle.update_draw) (p p' : Paddle.t) :
  Paddle.update math cfg cm k ball d p = Some p' →
  Rect.x (Paddle.rect p') = Rect.x (Paddle.rect p)
  ∧ Rect.w (Paddle.rect p') = Rect.w (Paddle.rect p)
  ∧ Rect.h (Paddle.rect p') = Rect.h (Paddle.rect p).
Proof.
  intros Hup.
  destruct (paddle_update_moved math cfg cm k ball d p p' Hup) as (Hrect & _).
  cbv zeta in Hrect. rewrite Hrect.
  destruct (negb (Paddle.is_ai p)).
  - unfold Paddle._player_move. simpl.
    destruct (Paddle.K_w k && _); simpl; destruct (Paddle.K_s k && _); done.
  - unfold Paddle._ai_move. repeat case_match; done.
Qed.

Lemma handle_powerups_keeps (i : World.frame_input) (w w' : World.t) :
  World._handle_powerups i w = Some w' →
  Game.ball (World.game w') = Game.ball (World.game w)
  ∧ Game.player_paddle (World.game w') = Game.player_paddle (World.game w)
  ∧ Game.ai_paddle (World.game w') = Game.ai_paddle (World.game w)
  ∧ Game.score (World.game w') = Game.score (World.game w)
  ∧ World.color_manager w' = World.color_manager w
  ∧ World.rifts w' = World.rifts w.
Proof.
  intros Hrun. unfold World._handle_powerups in Hrun.
  destruct (World._powerup_loop _ _ _ _) as [[w1 kept]|] eqn:Hloop;
    simpl in Hrun; [|discriminate].
  inversion Hrun; subst; simpl.
  apply powerup_loop_inv in Hloop.
  destruct Hloop as (_ & Hb & Hpl & Hai & Hsc & Hcm & Hrf & _). done.
Qed.

Lemma handle_rifts_keeps (i : World.frame_input) (w w' : World.t) :
  World._handle_rifts math hypot i w = Some w' →
  Ball.rect (Game.ball (World.game w')) = Ball.rect (Game.ball (World.game w))
  ∧ Ball.trail (Game.ball (World.game w')) = Ball.trail (Game.ball (World.game w))
  ∧ Game.player_paddle (World.game w') = Game.player_paddle (World.game w)
  ∧ Game.ai_paddle (World.game w') = Game.ai_paddle (World.game w)
  ∧ Game.score (World.game w') = Game.score (World.game w)
  ∧ World.color_manager w' = World.color_manager w
  ∧ rift_shape <$> World.rifts w' = rift_shape <$> visited_rifts i w.
Proof.
  intros Hrun. unfold World._handle_rifts in Hrun.
  fold (visited_rifts i w) in Hrun.
  destruct (World._rift_loop _ _ _ _ _ _ _) as [[g1 rs]|] eqn:Hloop;
    simpl in Hrun; [|discriminate].
  inversion Hrun; subst; simpl.
  apply rift_loop_inv in Hloop. cbv zeta in Hloop.
  destruct Hloop as (Hshape & Hrect & _ & _ & Htrail & Hpl & Hai & Hsc & _). done.
Qed.

(** X19.  A frame scores at most one point.  When [Game.update] ends,
    neither side's score has decreased and the two scores together have
    grown by at most 1. *)
Theorem frame_scores_at_most_one_point (i : World.frame_input)
    (w w' : World.t) :
  World.update math hypot cfg i w = Some w' →
  let s := Game.score (World.game w) in
  let s' := Game.score (World.game w') in
  s.1 ≤ s'.1 ∧ s.2 ≤ s'.2 ∧ s'.1 + s'.2 ≤ s.1 + s.2 + 1.
Proof.
  intros Hup s s'. subst s s'.
  destruct (world_update_inv i w w' Hup)
    as (cm & player & ai & ball & g2 & w4 & w5 & _ & _ & _ & _ & Hcol & Hpow
        & Hrift & ->).
  apply handle_collisions_keeps in Hcol as (Hs2 & _).
  apply handle_powerups_keeps in Hpow as (_ & _ & _ & Hs4 & _).
  apply handle_rifts_keeps in Hrift as (_ & _ & _ & _ & Hs5 & _).
  simpl in *. rewrite Hs5, Hs4.
  destruct (scoring_keeps (World.reset_draw i) g2) as (H1 & H2 & H3 & _).
  rewrite Hs2 in H1, H2, H3. done.
Qed.

(** X20.  A frame keeps the layout.  When [Game.update] ends, each paddle
    has the horizontal position, width and height it had, so paddles only
    move vertically; a trail of at most 20 centers is still one; the
    rifts that were listed are still listed, in their order and where
    they were, followed by at most one new rift; and the hue accumulator
    of the colour cycler has grown by 0.01. *)
Theorem frame_keeps_the_layout (i : World.frame_input) (w w' : World.t) :
  World.update math hypot cfg i w = Some w' →
  (∀ s, Rect.x (Paddle.rect (Game.paddle s (World.game w')))
        = Rect.x (Paddle.rect (Game.paddle s (World.game w)))
        ∧ Rect.w (Paddle.rect (Game.paddle s (World.game w')))
          = Rect.w (Paddle.rect (Game.paddle s (World.game w)))
        ∧ Rect.h (Paddle.rect (Game.paddle s (World.game w')))
          = Rect.h (Paddle.rect (Game.paddle s (World.game w))))
  ∧ ((length (Ball.trail (Game.ball (World.game w))) ≤ 20)%nat →
     (length (Ball.trail (Game.ball (World.game w'))) ≤ 20)%nat)
  ∧ (∃ extra, rift_shape <$> World.rifts w'
              = (rift_shape <$> World.rifts w) ++ extra
              ∧ (length extra ≤ 1)%nat)
  ∧ shift (World.color_manager w') = accumulate (shift (World.color_manager w)).
Proof.
  intros Hup.
  destruct (world_update_inv i w w' Hup)
    as (cm & player & ai & ball & g2 & w4 & w5 & Hcm & Hpl & Hai & Hball & Hcol
        & Hpow & Hrift & ->).
  apply handle_collisions_keeps in Hcol as (_ & _ & Htr2 & Hp2).
  apply handle_powerups_keeps in Hpow as (Hb4 & Hpl4 & Hai4 & _ & Hcm4 & Hrf4).
  apply handle_rifts_keeps in Hrift as (_ & Htr5 & Hpl5 & Hai5 & _ & Hcm5 & Hsh5).
  destruct (scoring_keeps (World.reset_draw i) g2) as (_ & _ & _ & Htr3 & _ & _ & Hp3).
  pose proof (Hp3 Game.Player) as Hp3p. pose proof (Hp3 Game.AI) as Hp3a.
  pose proof (Hp2 Game.Player) as Hp2p. pose proof (Hp2 Game.AI) as Hp2a.
  clear Hp2 Hp3. simpl in *.
  split; [|split; [|split]].
  - apply paddle_update_column in Hpl. apply paddle_update_column in Hai.
    intros [|]; simpl.
    + rewrite Hpl5, Hpl4, Hp3p, Hp2p. exact Hpl.
    + rewrite Hai5, Hai4, Hp3a, Hp2a. exact Hai.
  - intros Hlen. rewrite Htr5, Hb4, Htr3, Htr2. simpl.
    rewrite (update_trail math cm _ _ _ _ Hball), push_trail_take by exact Hlen.
    rewrite length_take. lia.
  - rewrite Hsh5. unfold visited_rifts. rewrite Hrf4. simpl.
    destruct (World.rift_chance i <? 0.005)%float.
    + rewrite fmap_app. eexists. split; [reflexivity|]. simpl. lia.
    + exists []. rewrite app_nil_r. split; [reflexivity|]. simpl. lia.
  - rewrite Hcm5, Hcm4. simpl. apply update_shift in Hcm as [Hsh _]. exact Hsh.
Qed.
End frame_facts.

(** X19 and X20 on a frame of the example world. *)
Lemma frame_scores_at_most_one_point_witness :
  ∃ w', World.update poly_math sqrt_hypot defaults quiet_frame a_world = Some w'
    ∧ (0 ≤ (Game.score (World.game w')).1
       ∧ 0 ≤ (Game.score (World.game w')).2
       ∧ (Game.score (World.game w')).1 + (Game.score (World.game w')).2 ≤ 1).
Proof.
  assert (Hrun : ∃ w', World.update poly_math sqrt_hypot defaults quiet_frame
                         a_world = Some w')
    by (eexists; vm_compute; reflexivity).
  destruct Hrun as [w' Hrun]. exists w'. split; [exact Hrun|].
  exact (frame_scores_at_most_one_point poly_math sqrt_hypot defaults
           quiet_frame a_world w' Hrun).
Defined.

Lemma frame_keeps_the_layout_witness :
  ∃ w', World.update poly_math sqrt_hypot defaults quiet_frame a_world = Some w'
    ∧ Rect.x (Paddle.rect (Game.ai_paddle (World.game w'))) = 735
    ∧ (length (Ball.trail (Game.ball (World.game w'))) ≤ 20)%nat.
Proof.
  assert (Hrun : ∃ w', World.update poly_math sqrt_hypot defaults quiet_frame
                         a_world = Some w')
    by (eexists; vm_compute; reflexivity).
  destruct Hrun as [w' Hrun]. exists w'. split; [exact Hrun|].
  destruct (frame_keeps_the_layout poly_math sqrt_hypot defaults quiet_frame
              a_world w' Hrun) as (Hpaddles & Htrail & _).
  split; [exact (proj1 (Hpaddles Game.AI))|].
  apply Htrail. simpl. lia.
Defined.


(** ** Particle lists through the frames *)

Section frame_particle_facts.
Context (math : Math) (hypot : float → float → float) (cfg : Settings).

Lemma paddle_update_listed (cm : DynamicColorManager) (k : Paddle.keys)
    (ball : Ball.t) (d : Paddle.update_draw) (p p' : Paddle.t) :
  sized (Paddle.spawned d) →
  Paddle.update math cfg cm k ball d p = Some p' →
  listed_since 0 (Paddle.particles p) → listed_since 0 (Paddle.particles p').
Proof.
  intros Hd Hup Hinv.
  destruct (paddle_update_particles math cfg cm k ball d p p' Hup)
    as [-> | (x & y & c & ->)].
  - apply listed_weaken, listed_age, Hinv.
  - apply listed_spawn; [apply listed_age, Hinv | exact Hd].
Qed.

Lemma handle_collisions_keeps_particles (cm : DynamicColorManager)
    (draws : Game.side → nat → Particle.draw) (g g' : Game.t) :
  Game._handle_collisions cfg cm draws g = Some g' →
  Ball.particles (Game.ball g') = Ball.particles (Game.ball g)
  ∧ ∀ s, Paddle.particles (Game.paddle s g') = Paddle.particles (Game.paddle s g).
Proof.
  intros Hrun.
  destruct (handle_collisions_inv cfg cm draws g g' Hrun) as (g1 & H1 & H2).
  assert (Hstep : ∀ s d ga gb, Game._collide cm s d ga = Some gb →
            Ball.particles (Game.ball gb) = Ball.particles (Game.ball ga)
            ∧ ∀ s', Paddle.particles (Game.paddle s' gb)
                    = Paddle.particles (Game.paddle s' ga)).
  { intros s d ga gb Hc. apply collide_inv in Hc.
    destruct (overlaps s ga); [|subst gb; done].
    destruct Hc as (c & _ & Hb & Hhit & Hother & _).
    rewrite Hb. split; [reflexivity|].
    intros s'. destruct s, s'; simpl in *; rewrite ?Hhit, ?Hother; reflexivity. }
  destruct (Hstep _ _ _ _ H1) as (Hb1 & Hp1).
  destruct (Hstep _ _ _ _ H2) as (Hb2 & Hp2).
  destruct (after_walls_frame cfg g) as (_ & _ & _ & Hpl & Hai & _).
  assert (Hb0 : Ball.particles (Game.ball (after_walls cfg g))
                = Ball.particles (Game.ball g))
    by (unfold after_walls; case_match; reflexivity).
  split; [congruence|].
  intros s. rewrite Hp2, Hp1. destruct s; simpl; congruence.
Qed.

Lemma scoring_keeps_particles (d : Ball.reset_draw) (g : Game.t) :
  let g' := Game._update_game_state math cfg d g in
  Ball.particles (Game.ball g') = Ball.particles (Game.ball g)
  ∧ ∀ s, Paddle.particles (Game.paddle s g') = Paddle.particles (Game.paddle s g).
Proof.
  intros g'. subst g'. unfold Game._update_game_state.
  destruct (_ || _); [|done]. split; [reflexivity|]. intros [|]; reflexivity.
Qed.

Lemma rift_loop_keeps_particles (items : list InterdimensionalRift.t)
    (draws : nat → World.rift_draw) (cm : DynamicColorManager) :
  ∀ (i : nat) (g g' : Game.t) (rs : list InterdimensionalRift.t),
    World._rift_loop math hypot items i draws g cm = Some (g', rs) →
    Ball.particles (Game.ball g') = Ball.particles (Game.ball g).
Proof.
  induction items as [|r rest IH]; intros i g g' rs Hrun.
  - simpl in Hrun. inversion Hrun; reflexivity.
  - rewrite rift_loop_cons in Hrun. cbv zeta in Hrun.
    destruct (World._rift_loop math hypot rest (S i) draws _ cm)
      as [[g2 rs2]|] eqn:Hrest; simpl in Hrun; [|discriminate].
    inversion Hrun; subst. apply IH in Hrest. rewrite Hrest.
    destruct (reaches hypot (Ball.rect (Game.ball g)) r); reflexivity.
Qed.

Lemma update_lists_tracked (i : World.frame_input) (w w' : World.t) :
  frame_sized i →
  World.update math hypot cfg i w = Some w' →
  lists_tracked w → lists_tracked w'.
Proof.
  intros (Hdp & Hda & Hdb) Hup (Hball & Hplayer & Hai).
  destruct (world_update_inv math hypot cfg i w w' Hup)
    as (cm & player & ai & ball & g2 & w4 & w5 & _ & Hpl & Hai' & Hb & Hcol
        & Hpow & Hrift & ->).
  apply (paddle_update_listed _ _ _ _ _ _ Hdp) in Hpl; [|exact Hplayer].
  apply (paddle_update_listed _ _ _ _ _ _ Hda) in Hai'; [|exact Hai].
  apply (update_listed math cm _ _ _ _ Hdb) in Hb; [|exact Hball].
  apply handle_collisions_keeps_particles in Hcol as (Hb2 & Hp2).
  destruct (scoring_keeps_particles (World.reset_draw i) g2) as (Hb3 & Hp3).
  apply handle_powerups_keeps in Hpow as (Hb4 & Hpl4 & Hai4 & _).
  pose proof (handle_rifts_keeps math hypot i w4 w5 Hrift)
    as (_ & _ & Hpl5 & Hai5 & _).
  assert (Hb5 : Ball.particles (Game.ball (World.game w5))
                = Ball.particles (Game.ball (World.game w4))).
  { unfold World._handle_rifts in Hrift.
    destruct (World._rift_loop _ _ _ _ _ _ _) as [[g1 rs]|] eqn:Hloop;
      simpl in Hrift; [|discriminate].
    inversion Hrift; subst; simpl.
    exact (rift_loop_keeps_particles _ _ _ _ _ _ _ Hloop). }
  pose proof (Hp3 Game.Player) as Hp3p. pose proof (Hp3 Game.AI) as Hp3a.
  pose proof (Hp2 Game.Player) as Hp2p. pose proof (Hp2 Game.AI) as Hp2a.
  clear Hp2 Hp3. unfold lists_tracked. simpl in *.
  rewrite Hb5, Hb4, Hb3, Hb2, Hpl5, Hpl4, Hp3p, Hp2p, Hai5, Hai4, Hp3a, Hp2a.
  done.
Qed.

(** X21.  Through whole frames the private particle lists stay bounded.
    Start from a game whose ball and paddles have no particles, as
    [Game.__init__] builds it, and run any number of frames in which the
    particles of the ball and of the paddles are created with a size from
    [randint(2, 5)]: the ball never holds more than 50 particles and each
    paddle never more than 51, whatever the collisions, the points
    scored, the power-ups and the rifts. *)
Theorem frames_keep_particle_lists_bounded (inputs : list World.frame_input)
    (w w' : World.t) :
  Ball.particles (Game.ball (World.game w)) = [] →
  Paddle.particles (Game.player_paddle (World.game w)) = [] →
  Paddle.particles (Game.ai_paddle (World.game w)) = [] →
  Forall frame_sized inputs →
  world_run math hypot cfg inputs w = Some w' →
  (length (Ball.particles (Game.ball (World.game w'))) ≤ 50)%nat
  ∧ (length (Paddle.particles (Game.player_paddle (World.game w'))) ≤ 51)%nat
  ∧ (length (Paddle.particles (Game.ai_paddle (World.game w'))) ≤ 51)%nat.
Proof.
  intros Hb Hp Ha Hsized Hrun.
  assert (Hinv : lists_tracked w)
    by (unfold lists_tracked; rewrite Hb, Hp, Ha; repeat split; apply listed_nil).
  clear Hb Hp Ha.
  assert (Hinv' : lists_tracked w').
  { revert w Hinv Hrun.
    induction inputs as [|i rest IH]; intros w Hinv Hrun; simpl in Hrun.
    - inversion Hrun; subst; exact Hinv.
    - inversion Hsized as [|? ? Hi Hrest]; subst.
      destruct (World.update math hypot cfg i w) as [w1|] eqn:Hup;
        simpl in Hrun; [|discriminate].
      exact (IH Hrest w1 (update_lists_tracked i w w1 Hi Hup Hinv) Hrun). }
  destruct Hinv' as (Hball & Hplayer & Hai).
  split; [exact (listed_length 1 _ Hball)|].
  split; [exact (listed_length 0 _ Hplayer) | exact (listed_length 0 _ Hai)].
Qed.
End frame_particle_facts.

(** X21 on three frames of a new game with the default settings in which
    the ball and both paddles spawn: three particles each. *)
Lemma frames_keep_particle_lists_bounded_witness :
  ∃ w',
    world_run poly_math sqrt_hypot defaults (replicate 3 busy_frame)
      (World.init poly_math defaults palette "Fire" "Time" a_reset_draw)
    = Some w'
    ∧ (length (Ball.particles (Game.ball (World.game w'))) ≤ 50)%nat
    ∧ (length (Paddle.particles (Game.player_paddle (World.game w'))) ≤ 51)%nat
    ∧ (length (Paddle.particles (Game.ai_paddle (World.game w'))) ≤ 51)%nat.
Proof.
  assert (Hrun : ∃ w',
             world_run poly_math sqrt_hypot defaults (replicate 3 busy_frame)
               (World.init poly_math defaults palette "Fire" "Time" a_reset_draw)
             = Some w')
    by (eexists; vm_compute; reflexivity).
  destruct Hrun as [w' Hrun]. exists w'. split; [exact Hrun|].
  apply (frames_keep_particle_lists_bounded poly_math sqrt_hypot defaults
           (replicate 3 busy_frame)
           (World.init poly_math defaults palette "Fire" "Time" a_reset_draw) w');
    [reflexivity | reflexivity | reflexivity | | exact Hrun].
  apply Forall_forall. intros i Hi. apply elem_of_replicate in Hi as [-> _].
  unfold frame_sized, sized. vm_compute. repeat split; discriminate.
Defined.


(** ** Drawing the trail *)

(** The radius of the circle at each index below 20, for every ball width
    from 10 to 1024: the width minus half the index, rounded up, checked
    by running the subtraction and the truncation on every pair. *)
Lemma trail_radius_checked :
  forallb (λ w, forallb (λ i, bool_decide
                            (Py.to_int (Py.of_int w - Py.of_int (Z.of_nat i) * 0.5)
                             = Some (w - (Z.of_nat i + 1) `div` 2)))
                        (seq 0 20))
          (seqZ 10 1015) = true.
Proof. vm_compute. reflexivity. Qed.

Lemma trail_radius (w : Z) (i : nat) :
  10 ≤ w ≤ 1024 → (i < 20)%nat →
  Py.to_int (Py.of_int w - Py.of_int (Z.of_nat i) * 0.5)
  = Some (w - (Z.of_nat i + 1) `div` 2).
Proof.
  intros Hw Hi.
  assert (Hin : In w (seqZ 10 1015))
    by (apply list_elem_of_In, elem_of_seqZ; lia).
  pose proof (proj1 (forallb_forall _ _) trail_radius_checked w Hin) as Hrow.
  assert (Hini : In i (seq 0 20)) by (apply in_seq; lia).
  pose proof (proj1 (forallb_forall _ _) Hrow i Hini) as Hcell.
  apply bool_decide_eq_true in Hcell. exact Hcell.
Qed.

Section trail_drawing_facts.
Context (cm : DynamicColorManager).

Lemma trail_circles_in_range (b : Ball.t) (trail : list (Z * Z)) :
  10 ≤ Rect.w (Ball.rect b) ≤ 1024 →
  ∀ (i : nat) (cs : list circle),
    (i + length trail ≤ 20)%nat →
    trail_circles cm b i trail = Some cs →
    circle_pos <$> cs = trail
    ∧ Forall (λ c, 27 ≤ (circle_color c).2 ≤ 255
                   ∧ Rect.w (Ball.rect b) - 10 ≤ circle_radius c
                     ≤ Rect.w (Ball.rect b)) cs.
Proof.
  intros Hw. induction trail as [|pos rest IH]; intros i cs Hlen Hrun;
    simpl in Hrun.
  - inversion Hrun; subst. split; [reflexivity | constructor].
  - simpl in Hlen.
    destruct (DynamicColorManager_get cm (Ball.element b)) as [[[r g] b']|];
      simpl in Hrun; [|discriminate].
    rewrite (trail_radius _ i Hw) in Hrun by lia. simpl in Hrun.
    destruct (trail_circles cm b (S i) rest) as [cs'|] eqn:Hrest;
      simpl in Hrun; [|discriminate].
    inversion Hrun; subst.
    destruct (IH (S i) cs' ltac:(lia) Hrest) as [Hpos Hall].
    split; [rewrite fmap_cons, Hpos; reflexivity|].
    constructor; [|exact Hall]. simpl.
    assert (0 ≤ (Z.of_nat i + 1) `div` 2 ≤ 10)
      by (split; [apply Z.div_pos; lia | apply Z.div_le_upper_bound; lia]).
    lia.
Qed.

(** X22.  The fading trail is always drawable.  For a ball whose trail
    holds at most 20 centers, as [update] keeps it, and whose width is
    between 10 and 1024, [draw] passes to [pygame.draw.circle], for each
    center of the trail in order, an alpha between 27 and 255 and a
    radius between the width minus 10 and the width: the alpha
    [255 - i * 12] never becomes negative and the radius never exceeds
    the ball's width. *)
Theorem trail_fade_stays_in_range (b : Ball.t) (cs : list circle) :
  10 ≤ Rect.w (Ball.rect b) ≤ 1024 →
  (length (Ball.trail b) ≤ 20)%nat →
  trail_circles cm b 0 (Ball.trail b) = Some cs →
  circle_pos <$> cs = Ball.trail b
  ∧ Forall (λ c, 27 ≤ (circle_color c).2 ≤ 255
                 ∧ Rect.w (Ball.rect b) - 10 ≤ circle_radius c
                   ≤ Rect.w (Ball.rect b)) cs.
Proof.
  intros Hw Hlen Hrun.
  exact (trail_circles_in_range b (Ball.trail b) Hw 0 cs Hlen Hrun).
Qed.
End trail_drawing_facts.

(** X22 on the ball of a new game after 25 updates: 20 circles, the last
    one with alpha 27. *)
Lemma trail_fade_stays_in_range_witness :
  ∃ b recorded cs,
    run poly_math defaults palette (replicate 25 (Update 1 quiet))
        (Game.ball new_game) [] = Some (b, recorded)
    ∧ trail_circles palette b 0 (Ball.trail b) = Some cs
    ∧ length cs = 20%nat
    ∧ Forall (λ c, 27 ≤ (circle_color c).2 ≤ 255
                   ∧ 5 ≤ circle_radius c ≤ 15) cs.
Proof.
  assert (Hrun : ∃ b recorded cs,
             run poly_math defaults palette (replicate 25 (Update 1 quiet))
                 (Game.ball new_game) [] = Some (b, recorded)
             ∧ trail_circles palette b 0 (Ball.trail b) = Some cs
             ∧ length cs = 20%nat
             ∧ Rect.w (Ball.rect b) = 15
             ∧ length (Ball.trail b) = 20%nat)
    by (do 3 eexists; split; [vm_compute; reflexivity|];
        split; [vm_compute; reflexivity|];
        split; [vm_compute; reflexivity|];
        split; vm_compute; reflexivity).
  destruct Hrun as (b & recorded & cs & Hrun & Hcs & Hlen & Hw & Htrail).
  exists b, recorded, cs. split; [exact Hrun|]. split; [exact Hcs|].
  split; [exact Hlen|].
  destruct (trail_fade_stays_in_range palette b cs) as [_ Hall];
    [rewrite Hw; lia | rewrite Htrail; lia | exact Hcs |].
  rewrite Hw in Hall. exact Hall.
Defined.
